(** * TFT match-data processing pipeline: a shallow embedding

    This development embeds the delimited-column codec, the structural
    validator, the output-directory allocator and the canonical table
    builder of [scripts/data_processing.py], together with [split_column]
    of [scripts/split_columns.py], and proves the properties their
    specification states about them.

    Modelling conventions.
    - A Python [str] is a [string]; every character is a code point below
      256.
    - A cell of a pandas object is a [value]: missing ([NaN], [None],
      [pd.NA]), a string, an integer or a boolean.  Floating-point cells
      other than [NaN] are outside the model.
    - A [DataFrame] is a [frame]: its column labels in order and its rows,
      each row listing one cell per label.  Frames read from CSV have
      pairwise distinct labels and rectangular rows ([wf_frame]).
    - Exceptions are values of [exn]; fallible code returns [result]; code
      that touches the file system runs in the state-and-exception monad
      [M] over [world]. *)

From stdpp Require Import base option list strings pretty gmap fin_maps.
From Stdlib Require Import Ascii ZArith Lia.

Local Open Scope string_scope.
Local Open Scope list_scope.

(** ** Exceptions *)

(** A path is the list of its components, innermost first: the parent of
    [name :: p] is [p], and [[]] is the directory all paths are relative
    to. *)
Definition path := list string.

Inductive value :=
| VNA
| VStr (s : string)
| VInt (z : Z)
| VBool (b : bool).

Global Instance value_eq_dec : EqDecision value.
Proof. solve_decision. Defined.

Definition value_enc (v : value) : unit + string + Z + bool :=
  match v with
  | VNA => inl (inl (inl tt))
  | VStr s => inl (inl (inr s))
  | VInt z => inl (inr z)
  | VBool b => inr b
  end.

Definition value_dec (x : unit + string + Z + bool) : value :=
  match x with
  | inl (inl (inl _)) => VNA
  | inl (inl (inr s)) => VStr s
  | inl (inr z) => VInt z
  | inr b => VBool b
  end.

Global Instance value_countable : Countable value.
Proof. apply (inj_countable' value_enc value_dec). by intros []. Defined.

Inductive exn :=
| MissingColumns (label : string) (missing : list string)
    (* ValueError("Missing columns in {label}: {missing}") *)
| ParticipantMismatch (details : gmap value nat) (expected : Z)
    (* ValueError("Participant count mismatch for matches: ...") *)
| EmptySeparator            (* ValueError("empty separator"), from str.split *)
| KeyError (key : string)
| TypeError
| ProcessedDirExists (p : path)
    (* FileExistsError("Processed directory already exists: ...") *)
| OSFileExists (p : path)   (* FileExistsError raised by os.mkdir *)
| FileNotFound (p : path)
| NotADirectory (p : path)
| IsADirectory (p : path).

Inductive result (A : Type) :=
| Ok (a : A)
| Raise (e : exn).
Global Arguments Ok {A} a.
Global Arguments Raise {A} e.

Definition rbind {A B} (r : result A) (k : A → result B) : result B :=
  match r with
  | Ok a => k a
  | Raise e => Raise e
  end.

Notation "'let*' x ':=' r 'in' k" := (rbind r (λ x, k))
  (at level 10, x name, r at level 100, k at level 200, only parsing).

(** Apply a fallible function to every element, left to right; the first
    exception propagates. *)
Fixpoint rmap {A B} (f : A → result B) (l : list A) : result (list B) :=
  match l with
  | [] => Ok []
  | x :: l' => let* y := f x in let* ys := rmap f l' in Ok (y :: ys)
  end.

(** ** Python string primitives *)

(** [str.isspace] on a single code point below 256. *)
Definition isspace (c : ascii) : bool :=
  match c with
  | "009" | "010" | "011" | "012" | "013"
  | "028" | "029" | "030" | "031" | " "
  | "133" | "160" => true
  | _ => false
  end%char.

Definition is_empty (s : string) : bool :=
  match s with
  | "" => true
  | _ => false
  end.

Fixpoint lstrip (s : string) : string :=
  match s with
  | "" => ""
  | String c s' => if isspace c then lstrip s' else s
  end.

Fixpoint rstrip (s : string) : string :=
  match s with
  | "" => ""
  | String c s' =>
      let r := rstrip s' in
      if is_empty r && isspace c then "" else String c r
  end.

(** [s.strip()] *)
Definition strip (s : string) : string := rstrip (lstrip s).

(** [split_from sep skip s] scans [s] left to right.  [skip] counts the
    characters of a separator occurrence still to be passed over; the head
    of the result is the token under construction. *)
Fixpoint split_from (sep : string) (skip : nat) (s : string) : list string :=
  match s with
  | "" => [""]
  | String c s' =>
      match skip with
      | S k => split_from sep k s'
      | O =>
          if String.prefix sep s
          then "" :: split_from sep (String.length sep - 1) s'
          else match split_from sep 0 s' with
               | t :: ts => String c t :: ts
               | [] => [String c ""]
               end
      end
  end.

(** [s.split(sep)] *)
Definition py_split (sep s : string) : result (list string) :=
  if is_empty sep then Raise EmptySeparator else Ok (split_from sep 0 s).

(** [sep.join(parts)] *)
Fixpoint join (sep : string) (parts : list string) : string :=
  match parts with
  | [] => ""
  | [x] => x
  | x :: rest => x +:+ sep +:+ join sep rest
  end.

(** [str(value)] for a cell that is not missing. *)
Definition py_str (v : value) : string :=
  match v with
  | VNA => "nan"
  | VStr s => s
  | VInt z => pretty z
  | VBool true => "True"
  | VBool false => "False"
  end.

(** [pd.isna(value)] *)
Definition isna (v : value) : bool :=
  match v with
  | VNA => true
  | _ => false
  end.

(** [value == ""] *)
Definition eq_empty_str (v : value) : bool :=
  match v with
  | VStr "" => true
  | _ => false
  end.

(** ** Parsing helpers *)

(** The inner function [_split] of [parse_delimited_column]. *)
Definition _split (delimiter : string) (drop_empty : bool) (v : value)
  : result (list value) :=
  if isna v || eq_empty_str v then
    Ok (if drop_empty then [] else [v])
  else
    let* raw := py_split delimiter (py_str v) in
    let parts := strip <$> raw in
    Ok (VStr <$> (if drop_empty
                  then filter (λ p, is_empty p = false) parts
                  else parts)).

(** [parse_delimited_column]: [series.apply(_split)]. *)
Definition parse_delimited_column (series : list value)
    (delimiter : string) (drop_empty : bool) : result (list (list value)) :=
  rmap (_split delimiter drop_empty) series.


(** ** Data frames *)

Record frame := Frame {
  columns : list string;
  rows : list (list value)
}.

Global Instance frame_eq_dec : EqDecision frame.
Proof. solve_decision. Defined.

(** Every row has one cell per label. *)
Definition rect (df : frame) : Prop :=
  Forall (λ r, length r = length (columns df)) (rows df).

(** Labels are pairwise distinct and the rows are rectangular. *)
Definition wf_frame (df : frame) : Prop := NoDup (columns df) ∧ rect df.

Global Instance rect_dec df : Decision (rect df).
Proof. unfold rect. apply _. Defined.

Global Instance wf_frame_dec df : Decision (wf_frame df).
Proof. unfold wf_frame. apply _. Defined.

(** Position of the first label equal to [name]. *)
Fixpoint index_of (name : string) (cols : list string) : option nat :=
  match cols with
  | [] => None
  | c :: cols' =>
      if decide (c = name) then Some 0 else S <$> index_of name cols'
  end.

(** [name in df.columns] *)
Definition has_column (df : frame) (name : string) : bool :=
  bool_decide (name ∈ columns df).

Definition cell_at (j : nat) (r : list value) : value := default VNA (r !! j).

(** [df[name]] *)
Definition get_col (df : frame) (name : string) : result (list value) :=
  match index_of name (columns df) with
  | Some j => Ok (cell_at j <$> rows df)
  | None => Raise (KeyError name)
  end.

(** [df[name] = series].  An existing label keeps its position, a new
    label is appended.  A row without a matching entry in [series]
    receives a missing value, as index alignment does. *)
Definition set_col (name : string) (series : list value) (df : frame) : frame :=
  match index_of name (columns df) with
  | Some j =>
      Frame (columns df)
            (imap (λ k r, <[j := default VNA (series !! k)]> r) (rows df))
  | None =>
      Frame (columns df ++ [name])
            (imap (λ k r, r ++ [default VNA (series !! k)]) (rows df))
  end.

(** [df.drop(columns=[name])] *)
Definition drop_col (name : string) (df : frame) : result frame :=
  match index_of name (columns df) with
  | Some j => Ok (Frame (delete j (columns df)) (delete j <$> rows df))
  | None => Raise (KeyError name)
  end.


(** [mapping.get(c, c)] for a dict literal, written as its item list. *)
Fixpoint renamed (mapping : list (string * string)) (c : string) : string :=
  match mapping with
  | [] => c
  | (old, new) :: mapping' =>
      if decide (c = old) then new else renamed mapping' c
  end.

(** [df.rename(columns=mapping)] *)
Definition rename_cols (mapping : list (string * string)) (df : frame) : frame :=
  Frame (renamed mapping <$> columns df) (rows df).

(** [df.loc[mask]] for a boolean mask *)
Definition select_rows (mask : list bool) (df : frame) : frame :=
  Frame (columns df) (fst <$> filter (λ rb, snd rb = true) (zip (rows df) mask)).

(** ** Validation helpers *)

(** [[col for col in required if col not in df.columns]] *)
Definition missing_columns (df : frame) (required : list string)
  : list string :=
  filter (λ col, col ∉ columns df) required.

Definition _ensure_columns (df : frame) (required : list string)
    (label : string) : result unit :=
  let missing := missing_columns df required in
  match missing with
  | [] => Ok tt
  | _ => Raise (MissingColumns label missing)
  end.



(** ** Codec operations on frames *)

(** [delimiter.join(parts)] raises [TypeError] on an item that is not a
    string. *)
Definition join_values (delimiter : string) (parts : list value)
  : result value :=
  let* strs := rmap (λ v, match v with
                    | VStr s => Ok s
                    | _ => Raise TypeError
                    end) parts in
  Ok (VStr (join delimiter strs)).

Definition normalize_delimited_column (df : frame) (column : string)
    (delimiter : string) : result frame :=
  if negb (has_column df column) then Ok df
  else
    let* series := get_col df column in
    let* parsed := parse_delimited_column series delimiter true in
    let* joined := rmap (join_values delimiter) parsed in
    Ok (set_col column joined df).

(** [range(n)] *)
Definition range (n : Z) : list nat := seq 0 (Z.to_nat n).

(** [f"{prefix}_{i}"] *)
Definition slot_name (prefix : string) (i : nat) : string :=
  prefix +:+ "_" +:+ pretty i.

(** [lst[idx] if idx < len(lst) else pd.NA] *)
Definition slot_value (idx : nat) (lst : list value) : value :=
  if decide (idx < length lst) then default VNA (lst !! idx) else VNA.

(** [list_series.map(len).max() if not list_series.empty else 0] *)
Definition inferred_max (list_series : list (list value)) : Z :=
  match list_series with
  | [] => 0%Z
  | _ => Z.of_nat (max_list (length <$> list_series))
  end.

(** [max_parts if max_parts is not None else inferred_max] *)
Definition max_len (max_parts : option Z) (list_series : list (list value))
  : Z :=
  match max_parts with
  | Some m => m
  | None => inferred_max list_series
  end.

Definition split_delimited_to_columns (df : frame) (column prefix : string)
    (delimiter : string) (max_parts : option Z) : result frame :=
  if negb (has_column df column) then Ok df
  else
    let* series := get_col df column in
    let* list_series := parse_delimited_column series delimiter true in
    Ok (foldl (λ out i,
                 set_col (slot_name prefix i) (slot_value i <$> list_series) out)
              df (range (max_len max_parts list_series))).

(** [value_name or column] *)
Definition resolve_value_name (value_name : option string) (column : string)
  : string :=
  match value_name with
  | Some v => if is_empty v then column else v
  | None => column
  end.

(** [DataFrame.explode] on the column at position [j], whose cells are
    the lists [lists]: one row per element, and one row holding a missing
    value for an empty list. *)
Definition explode_rows (j : nat) (rs : list (list value))
    (lists : list (list value)) : list (list value) :=
  mjoin (zip_with (λ r lst,
           match lst with
           | [] => [<[j := VNA]> r]
           | _ => (λ t, <[j := t]> r) <$> lst
           end) rs lists).

Definition explode_delimited_column (df : frame) (column : string)
    (delimiter : string) (value_name : option string) : result frame :=
  let value_name := resolve_value_name value_name column in
  match index_of column (columns df) with
  | None => Raise (KeyError column)
  | Some j =>
      let* series := get_col df column in
      let* parsed := parse_delimited_column series delimiter true in
      let exploded := explode_rows j (rows df) parsed in
      let kept := filter (λ r, isna (cell_at j r) = false) exploded in
      Ok (rename_cols [(column, value_name)] (Frame (columns df) kept))
  end.

(** ** [split_column] of [scripts/split_columns.py] *)





(** ** Core transformations *)

(** The numeric reading of a cell in a comparison with an integer:
    missing compares false, a string raises [TypeError]. *)
Definition as_number (v : value) : result (option Z) :=
  match v with
  | VInt z => Ok (Some z)
  | VBool b => Ok (Some (Z.b2z b))
  | VNA => Ok None
  | VStr _ => Raise TypeError
  end.

(** [series <= bound] *)
Definition series_le (series : list value) (bound : Z) : result (list bool) :=
  rmap (λ v, let* n := as_number v in
             Ok (from_option (λ z, z <=? bound)%Z false n)) series.

(** [series > bound] *)
Definition series_gt (series : list value) (bound : Z) : result (list bool) :=
  rmap (λ v, let* n := as_number v in
             Ok (from_option (λ z, bound <? z)%Z false n)) series.

Definition add_participant_flags (participants : frame) (win_threshold : Z)
  : result frame :=
  let* _ := _ensure_columns participants ["placement"] "participants" in
  let out := participants in
  let* placement := get_col out "placement" in
  let* flags := series_le placement win_threshold in
  Ok (set_col "is_win" (VBool <$> flags) out).

(** ** The file system *)

Inductive node :=
| Dir
| File (content : frame).

(** The file system maps the paths that exist to their nodes; [reads]
    records, in order, the paths [pd.read_csv] was called on. *)
Record world := World {
  fs : gmap path node;
  reads : list path
}.

Definition M (A : Type) : Type := world → result A * world.

Definition ret {A} (a : A) : M A := λ w, (Ok a, w).
Definition raise {A} (e : exn) : M A := λ w, (Raise e, w).
Definition bind {A B} (m : M A) (k : A → M B) : M B := λ w,
  match m w with
  | (Ok a, w') => k a w'
  | (Raise e, w') => (Raise e, w')
  end.
Definition lift {A} (r : result A) : M A := λ w, (r, w).

Notation "'let+' x ':=' m 'in' k" := (bind m (λ x, k))
  (at level 10, x name, m at level 100, k at level 200, only parsing).

(** The base directory [[]] always exists. *)
Definition node_at (f : gmap path node) (p : path) : option node :=
  match p with
  | [] => Some Dir
  | _ => f !! p
  end.

(** [Path.exists] *)
Definition path_exists (p : path) (w : world) : bool :=
  bool_decide (is_Some (node_at (fs w) p)).

(** [Path.is_dir] *)
Definition is_dir (p : path) (w : world) : bool :=
  match node_at (fs w) p with
  | Some Dir => true
  | _ => false
  end.

(** [os.mkdir] *)
Definition os_mkdir (p : path) : M unit := λ w,
  match p with
  | [] => (Raise (OSFileExists p), w)
  | _ :: parent =>
      match node_at (fs w) p with
      | Some _ => (Raise (OSFileExists p), w)
      | None =>
          match node_at (fs w) parent with
          | None => (Raise (FileNotFound p), w)
          | Some (File _) => (Raise (NotADirectory p), w)
          | Some Dir => (Ok tt, World (<[p := Dir]> (fs w)) (reads w))
          end
      end
  end.

(** The [except OSError] handler of [Path.mkdir]. *)
Definition mkdir_tolerate (exist_ok : bool) (p : path) (e : exn) : M unit :=
  λ w, if negb exist_ok || negb (is_dir p w) then (Raise e, w) else (Ok tt, w).

(** [Path.mkdir(parents=False, exist_ok=exist_ok)] *)
Definition mkdir_single (exist_ok : bool) (p : path) : M unit := λ w,
  match os_mkdir p w with
  | (Ok _, w') => (Ok tt, w')
  | (Raise (FileNotFound q), w') => (Raise (FileNotFound q), w')
  | (Raise e, w') => mkdir_tolerate exist_ok p e w'
  end.

(** [Path.mkdir(parents=parents, exist_ok=exist_ok)] *)
Fixpoint path_mkdir (parents exist_ok : bool) (p : path) : M unit := λ w,
  match os_mkdir p w with
  | (Ok _, w') => (Ok tt, w')
  | (Raise (FileNotFound q), w') =>
      match p with
      | [] => (Raise (FileNotFound q), w')
      | _ :: parent =>
          if negb parents then (Raise (FileNotFound q), w')
          else
            match path_mkdir true true parent w' with
            | (Ok _, w'') => mkdir_single exist_ok p w''
            | (Raise e, w'') => (Raise e, w'')
            end
      end
  | (Raise e, w') => mkdir_tolerate exist_ok p e w'
  end.

(** [pd.read_csv(p)]: the content of a file is the table it holds. *)
Definition read_csv (p : path) : M frame := λ w,
  let w' := World (fs w) (reads w ++ [p]) in
  match node_at (fs w) p with
  | Some (File df) => (Ok df, w')
  | Some Dir => (Raise (IsADirectory p), w')
  | None => (Raise (FileNotFound p), w')
  end.

(** [df.to_csv(p, index=False)] *)
Definition to_csv (df : frame) (p : path) : M unit := λ w,
  match p with
  | [] => (Raise (IsADirectory p), w)
  | _ :: parent =>
      match node_at (fs w) parent with
      | None => (Raise (FileNotFound p), w)
      | Some (File _) => (Raise (NotADirectory p), w)
      | Some Dir =>
          match node_at (fs w) p with
          | Some Dir => (Raise (IsADirectory p), w)
          | _ => (Ok tt, World (<[p := File df]> (fs w)) (reads w))
          end
      end
  end.

(** [base_dir / label], for a relative [label]. *)
Definition path_join (base_dir label : path) : path := label ++ base_dir.

Definition resolve_processed_output_dir (base_dir label : path) : M path :=
  let out_dir := path_join base_dir label in
  λ w,
    if path_exists out_dir w then (Raise (ProcessedDirExists out_dir), w)
    else (let+ _ := path_mkdir true false out_dir in ret out_dir) w.

(** The required columns of the three raw tables. *)
Definition participants_required : list string :=
  ["match_id"; "puuid"; "placement"; "level"].
Definition units_required : list string :=
  ["match_id"; "puuid"; "unit_id"; "star_level"; "items"].
Definition traits_required : list string :=
  ["match_id"; "puuid"; "trait_id"; "tier_current"].

Definition build_canonical_tables
    (participants_path units_path traits_path processed_base_dir : path)
    (delimiter : string) (label : path) : M path :=
  let+ _ := path_mkdir true true processed_base_dir in
  let+ output_dir := resolve_processed_output_dir processed_base_dir label in
  let+ participants := read_csv participants_path in
  let+ units := read_csv units_path in
  let+ traits := read_csv traits_path in
  let+ _ := lift (_ensure_columns participants participants_required
                    "participants") in
  let+ _ := lift (_ensure_columns units units_required "units") in
  let+ _ := lift (_ensure_columns traits traits_required "traits") in
  let+ participants := lift (add_participant_flags participants 4) in
  let+ units := lift (normalize_delimited_column units "items" delimiter) in
  let+ units := lift (split_delimited_to_columns units "items" "item"
                        delimiter (Some 3%Z)) in
  let+ units := lift (drop_col "items" units) in
  let units := rename_cols [("unit_id", "unit_name");
                            ("star_level", "unit_tier")] units in
  let+ tier := lift (get_col traits "tier_current") in
  let+ mask := lift (series_gt tier 0) in
  let traits := select_rows mask traits in
  let+ _ := to_csv participants ("participants.csv" :: output_dir) in
  let+ _ := to_csv units ("units.csv" :: output_dir) in
  let+ _ := to_csv traits ("traits.csv" :: output_dir) in
  ret output_dir.

(** ** Vocabulary of the properties *)

(** [sub in s] *)
Fixpoint contains (sub s : string) : bool :=
  String.prefix sub s ||
  match s with
  | "" => false
  | String _ s' => contains sub s'
  end.

(** Every character of [s] satisfies [P]. *)
Fixpoint all_chars (P : ascii → bool) (s : string) : bool :=
  match s with
  | "" => true
  | String c s' => P c && all_chars P s'
  end.


(** [s[k:]] *)
Fixpoint drop_str (k : nat) (s : string) : string :=
  match k, s with
  | S k', String _ s' => drop_str k' s'
  | _, _ => s
  end.

(** The strings [_split] returns for a cell when [drop_empty] is true and
    the delimiter is not empty. *)
Definition tokens (delimiter : string) (v : value) : list string :=
  if isna v || eq_empty_str v then []
  else filter (λ p, is_empty p = false)
              (strip <$> split_from delimiter 0 (py_str v)).

(** What [normalize_delimited_column] computes for one cell:
    [delimiter.join(_split(value))]. *)
Definition normalize_cell (delimiter : string) (v : value) : result value :=
  let* parts := _split delimiter true v in
  join_values delimiter parts.

(** The cells of row [k] in the columns [{prefix}_0], ...,
    [{prefix}_{width-1}] of [out], in slot order. *)
Definition row_slots (out : frame) (prefix : string) (width : Z) (k : nat)
  : result (list value) :=
  rmap (λ i, let* series := get_col out (slot_name prefix i) in
             Ok (default VNA (series !! k)))
       (range width).

(** The slots that are not null. *)
Definition non_null (slots : list value) : list value :=
  filter (λ v, isna v = false) slots.

(** ** Sample tables *)

Definition sample_participants : frame :=
  Frame ["match_id"; "puuid"; "placement"; "level"]
        [[VStr "m1"; VStr "p1"; VInt 1; VInt 8];
         [VStr "m1"; VStr "p2"; VInt 5; VInt 7]].

Definition sample_units : frame :=
  Frame ["match_id"; "puuid"; "unit_id"; "star_level"; "items"]
        [[VStr "m1"; VStr "p1"; VStr "Jinx"; VInt 2; VStr " ItemA ;; ItemB"];
         [VStr "m1"; VStr "p2"; VStr "Vi"; VInt 1; VNA];
         [VStr "m1"; VStr "p2"; VStr "Lux"; VInt 3; VStr "A;B;C;D"]].

Definition sample_traits : frame :=
  Frame ["match_id"; "puuid"; "trait_id"; "tier_current"]
        [[VStr "m1"; VStr "p1"; VStr "T1"; VInt 0];
         [VStr "m1"; VStr "p1"; VStr "T2"; VInt 1];
         [VStr "m1"; VStr "p2"; VStr "T3"; VInt 2]].








(** The failure names every required column that is missing from any of
    the three tables. *)
Definition names_all_missing (e : exn) (participants units traits : frame)
  : Prop :=
  ∃ label missing,
    e = MissingColumns label missing ∧
    ∀ col, col ∈ missing_columns participants participants_required
                 ++ missing_columns units units_required
                 ++ missing_columns traits traits_required →
           col ∈ missing.

(** The first table, in the order the builder checks them, that misses a
    required column, with the columns it misses. *)
Definition first_missing (participants units traits : frame)
  : option (string * list string) :=
  match missing_columns participants participants_required with
  | (_ :: _) as missing => Some ("participants", missing)
  | [] =>
      match missing_columns units units_required with
      | (_ :: _) as missing => Some ("units", missing)
      | [] =>
          match missing_columns traits traits_required with
          | (_ :: _) as missing => Some ("traits", missing)
          | [] => None
          end
      end
  end.

(** ** Sample worlds *)

Definition sample_world : world :=
  World (list_to_map
           [(["raw"], Dir);
            (["participants.csv"; "raw"], File sample_participants);
            (["units.csv"; "raw"], File sample_units);
            (["traits.csv"; "raw"], File sample_traits)])
        [].

(** Participants without [level], units without [items]. *)
Definition short_participants : frame :=
  Frame ["match_id"; "puuid"; "placement"]
        [[VStr "m1"; VStr "p1"; VInt 1]].

Definition short_units : frame :=
  Frame ["match_id"; "puuid"; "unit_id"; "star_level"]
        [[VStr "m1"; VStr "p1"; VStr "Jinx"; VInt 2]].

Definition short_world : world :=
  World (list_to_map
           [(["raw"], Dir);
            (["participants.csv"; "raw"], File short_participants);
            (["units.csv"; "raw"], File short_units);
            (["traits.csv"; "raw"], File sample_traits)])
        [].

(** A world in which [data] is a regular file. *)
Definition blocked_world : world :=
  World (list_to_map [(["data"], File sample_traits)]) [].

(** [w'] differs from [w] at most by directories created at paths that
    did not exist. *)
Definition only_adds_dirs (w w' : world) : Prop :=
  reads w' = reads w ∧
  ∀ q, node_at (fs w') q = node_at (fs w) q ∨
       (node_at (fs w) q = None ∧ node_at (fs w') q = Some Dir).

(** No proper ancestor of [p] is a regular file. *)
Definition no_file_above (p : path) (w : world) : Prop :=
  ∀ q df, q `suffix_of` p → q ≠ p → node_at (fs w) q ≠ Some (File df).

(** In a well-formed file system the parent of every node is a
    directory. *)
Definition wf_fs (f : gmap path node) : Prop :=
  ∀ x p n, f !! (x :: p) = Some n → node_at f p = Some Dir.

(** * Properties *)

(** ** Strings *)

Section strings.
Implicit Types (s t sep : string) (c d : ascii).

Lemma app_cons c s t : String c s +:+ t = String c (s +:+ t).
Proof. reflexivity. Qed.

Lemma app_empty_l t : "" +:+ t = t.
Proof. reflexivity. Qed.

Lemma app_empty_r s : s +:+ "" = s.
Proof. induction s as [|c s IH]; [done|]. by rewrite app_cons, IH. Qed.

Lemma app_assoc_str s t u : (s +:+ t) +:+ u = s +:+ (t +:+ u).
Proof. induction s as [|c s IH]; [done|]. by rewrite !app_cons, IH. Qed.

Lemma is_empty_true s : is_empty s = true ↔ s = "".
Proof. by destruct s. Qed.


(** *** [str.split] *)

Lemma split_from_nonnil sep k s : split_from sep k s ≠ [].
Proof.
  revert k. induction s as [|c s IH]; intros k; cbn [split_from]; [done|].
  destruct k; [|apply IH].
  destruct (String.prefix sep (String c s)); [done|].
  by destruct (split_from sep 0 s).
Qed.

Lemma prefix_app sep s :
  String.prefix sep s = true ↔ ∃ r, s = sep +:+ r.
Proof.
  revert s. induction sep as [|a sep IH]; intros s.
  - destruct s; simpl; (split; [intros _; eexists; by rewrite app_empty_l|done]).
  - destruct s as [|b s]; simpl.
    + split; [done|]. by intros [r ?].
    + destruct (ascii_dec a b) as [->|Hne].
      * rewrite IH. split; intros [r Hr]; exists r.
        -- by rewrite app_cons, <- Hr.
        -- rewrite app_cons in Hr. by simplify_eq.
      * split; [done|]. intros [r Hr]. rewrite app_cons in Hr.
        by simplify_eq.
Qed.

Lemma split_from_skip sep x rest :
  split_from sep (String.length x) (x +:+ rest) = split_from sep 0 rest.
Proof.
  induction x as [|c x IH]; simpl.
  - rewrite app_empty_l. by destruct rest.
  - apply IH.
Qed.

(** A separator occurrence at the head of the text closes the token
    under construction. *)
Lemma split_from_sep sep rest :
  sep ≠ "" →
  split_from sep 0 (sep +:+ rest) = "" :: split_from sep 0 rest.
Proof.
  intros Hsep. destruct sep as [|a sep]; [done|].
  rewrite app_cons. cbn [split_from].
  assert (String.prefix (String a sep) (String a (sep +:+ rest)) = true)
    as ->.
  { apply prefix_app. by exists rest. }
  f_equal. cbn [String.length]. rewrite Nat.sub_succ, Nat.sub_0_r.
  apply split_from_skip.
Qed.


Lemma join_cons_cons sep x y l :
  join sep (x :: y :: l) = x +:+ sep +:+ join sep (y :: l).
Proof. reflexivity. Qed.

Lemma join_head_char sep c t ts :
  join sep (String c t :: ts) = String c (join sep (t :: ts)).
Proof. destruct ts; [done|]. by rewrite !join_cons_cons, app_cons. Qed.

(** Joining the tokens of a split with the separator gives the text
    back. *)
Lemma join_split_from sep k s :
  sep ≠ "" →
  join sep (split_from sep k s) = drop_str k s.
Proof.
  intros Hsep. revert k.
  induction s as [|c s IH]; intros k; [by destruct k|].
  destruct k as [|k]; [|apply IH].
  cbn [split_from drop_str].
  destruct (String.prefix sep (String c s)) eqn:Hp.
  - apply prefix_app in Hp as [r Hr].
    destruct sep as [|a sep]; [done|].
    rewrite app_cons in Hr. simplify_eq.
    cbn [String.length]. rewrite Nat.sub_succ, Nat.sub_0_r.
    rewrite split_from_skip.
    pose proof (split_from_nonnil (String a sep) 0 r) as Hnn.
    specialize (IH (String.length sep)).
    rewrite split_from_skip in IH.
    destruct (split_from (String a sep) 0 r) as [|y l] eqn:Hs; [done|].
    rewrite join_cons_cons, app_empty_l, IH.
    rewrite app_cons. f_equal.
    clear. induction sep as [|b sep IH]; simpl.
    + rewrite app_empty_l. by destruct r.
    + by rewrite app_cons, IH.
  - specialize (IH 0).
    pose proof (split_from_nonnil sep 0 s) as Hnn.
    destruct (split_from sep 0 s) as [|t ts]; [done|].
    rewrite join_head_char, IH. by destruct s.
Qed.

Lemma join_py_split sep s :
  sep ≠ "" → ∃ raw, py_split sep s = Ok raw ∧ join sep raw = s.
Proof.
  intros Hsep. exists (split_from sep 0 s). unfold py_split.
  destruct sep; [done|]. split; [done|].
  rewrite join_split_from by done. by destruct s.
Qed.


(** *** A one-character separator *)

Lemma contains_char_cons d c t :
  contains (String d "") (String c t) = false ↔
  d ≠ c ∧ contains (String d "") t = false.
Proof.
  cbn [contains String.prefix].
  destruct (ascii_dec d c) as [->|Hne].
  - destruct t; simpl; split; (done || by intros [? _]).
  - simpl. split; [done|]. by intros [_ ?].
Qed.

Lemma split_from_char_cons d c s :
  split_from (String d "") 0 (String c s) =
  if decide (d = c) then "" :: split_from (String d "") 0 s
  else match split_from (String d "") 0 s with
       | t :: ts => String c t :: ts
       | [] => [String c ""]
       end.
Proof.
  cbn [split_from String.prefix String.length].
  destruct (ascii_dec d c) as [->|Hne].
  - rewrite decide_True by done. by destruct s.
  - by rewrite decide_False.
Qed.

(** No token of a split contains the separator. *)
Lemma split_from_char_free d s :
  Forall (λ t, contains (String d "") t = false)
         (split_from (String d "") 0 s).
Proof.
  induction s as [|c s IH]; [by repeat constructor|].
  rewrite split_from_char_cons. case_decide as Hd.
  - by constructor.
  - destruct (split_from (String d "") 0 s) as [|t ts].
    + repeat constructor. by apply contains_char_cons.
    + inversion IH; subst. constructor; [|done].
      by apply contains_char_cons.
Qed.

Lemma split_from_token d t :
  contains (String d "") t = false →
  split_from (String d "") 0 t = [t].
Proof.
  induction t as [|c t IH]; intros Ht; [done|].
  apply contains_char_cons in Ht as [Hne Ht].
  rewrite split_from_char_cons, decide_False, IH by done. done.
Qed.

Lemma split_from_token_sep d t r :
  contains (String d "") t = false →
  split_from (String d "") 0 (t +:+ String d "" +:+ r) =
  t :: split_from (String d "") 0 r.
Proof.
  induction t as [|c t IH]; intros Ht.
  - rewrite app_empty_l. by apply split_from_sep.
  - apply contains_char_cons in Ht as [Hne Ht].
    rewrite app_cons, split_from_char_cons, decide_False, IH by done. done.
Qed.

(** Splitting inverts joining when no token contains the separator. *)
Lemma split_from_join d ts :
  ts ≠ [] →
  Forall (λ t, contains (String d "") t = false) ts →
  split_from (String d "") 0 (join (String d "") ts) = ts.
Proof.
  intros Hne Hts. induction Hts as [|t ts Ht Hts IH]; [done|].
  destruct ts as [|t' ts].
  - by apply split_from_token.
  - rewrite join_cons_cons, split_from_token_sep, IH by done. done.
Qed.

(** *** [str.strip] *)

Lemma lstrip_head s :
  lstrip s = "" ∨ ∃ c t, lstrip s = String c t ∧ isspace c = false.
Proof.
  induction s as [|c s IH]; [by left|]. simpl.
  destruct (isspace c) eqn:Hc; [done|]. right. eauto.
Qed.

Lemma rstrip_cons_nonspace c t :
  isspace c = false → rstrip (String c t) = String c (rstrip t).
Proof. intros Hc. simpl. by rewrite Hc, andb_false_r. Qed.

Lemma rstrip_idem s : rstrip (rstrip s) = rstrip s.
Proof.
  induction s as [|c s IH]; [done|]. simpl.
  destruct (is_empty (rstrip s) && isspace c) eqn:Hb; [done|].
  simpl. by rewrite IH, Hb.
Qed.

Lemma strip_idem s : strip (strip s) = strip s.
Proof.
  unfold strip. destruct (lstrip_head s) as [->|(c & t & -> & Hc)]; [done|].
  rewrite rstrip_cons_nonspace by done. simpl. rewrite Hc.
  rewrite rstrip_cons_nonspace by done. by rewrite rstrip_idem.
Qed.



Lemma lstrip_char_free d s :
  contains (String d "") s = false →
  contains (String d "") (lstrip s) = false.
Proof.
  induction s as [|c s IH]; [done|]. intros Hs. simpl.
  destruct (isspace c); [|done].
  apply contains_char_cons in Hs as [_ Hs]. auto.
Qed.

Lemma rstrip_char_free d s :
  contains (String d "") s = false →
  contains (String d "") (rstrip s) = false.
Proof.
  induction s as [|c s IH]; [done|]. intros Hs.
  apply contains_char_cons in Hs as [Hne Hs]. simpl.
  destruct (is_empty (rstrip s) && isspace c); [done|].
  apply contains_char_cons. auto.
Qed.

Lemma strip_char_free d s :
  contains (String d "") s = false →
  contains (String d "") (strip s) = false.
Proof. intros Hs. by apply rstrip_char_free, lstrip_char_free. Qed.

(** [strip] removes a run of white space at either end and nothing
    else; what remains neither starts nor ends with white space. *)
Lemma lstrip_spec s :
  ∃ l, s = l +:+ lstrip s ∧ all_chars isspace l = true.
Proof.
  induction s as [|c s (l & Hl & Hsp)]; [by exists ""|]. simpl.
  destruct (isspace c) eqn:Hc.
  - exists (String c l). rewrite app_cons, <- Hl. simpl. by rewrite Hc.
  - by exists "".
Qed.

Lemma rstrip_spec s :
  ∃ r, s = rstrip s +:+ r ∧ all_chars isspace r = true.
Proof.
  induction s as [|c s (r & Hr & Hsp)]; [by exists ""|]. simpl.
  destruct (is_empty (rstrip s) && isspace c) eqn:Hb.
  - apply andb_true_iff in Hb as [He Hc]. apply is_empty_true in He.
    rewrite He, app_empty_l in Hr. subst r.
    exists (String c s). rewrite app_empty_l. simpl. by rewrite Hc.
  - exists r. by rewrite app_cons, <- Hr.
Qed.

Lemma strip_spec s :
  ∃ l r, s = l +:+ strip s +:+ r ∧
         all_chars isspace l = true ∧ all_chars isspace r = true.
Proof.
  destruct (lstrip_spec s) as (l & Hl & Hsl).
  destruct (rstrip_spec (lstrip s)) as (r & Hr & Hsr).
  exists l, r. unfold strip. by rewrite <- Hr.
Qed.
End strings.

(** ** Results *)

Section results.
Context {A B : Type}.
Implicit Types (f : A → result B) (g : A → B) (l : list A).

Lemma rmap_ok f g l :
  (∀ x, x ∈ l → f x = Ok (g x)) → rmap f l = Ok (g <$> l).
Proof.
  induction l as [|x l IH]; intros Hf; [done|]. simpl.
  rewrite Hf by left. simpl. rewrite IH; [done|].
  intros y Hy. apply Hf. by right.
Qed.

End results.

(** ** Lists *)

Section lists.
Context {A : Type} (P : A → Prop) `{!∀ x, Decision (P x)}.

Lemma filter_all (l : list A) : Forall P l → filter P l = l.
Proof.
  induction 1 as [|x l Hx _ IH]; [done|].
  by rewrite filter_cons_True, IH.
Qed.

Lemma filter_none (l : list A) : Forall (λ x, ¬ P x) l → filter P l = [].
Proof.
  induction 1 as [|x l Hx _ IH]; [done|].
  by rewrite filter_cons_False.
Qed.
End lists.

(** ** Parsing *)

Section parsing.
Implicit Types (d : string) (v : value).

Lemma py_split_nonempty d s :
  d ≠ "" → py_split d s = Ok (split_from d 0 s).
Proof. intros Hd. unfold py_split. by destruct d. Qed.

Lemma _split_tokens d v :
  d ≠ "" → _split d true v = Ok (VStr <$> tokens d v).
Proof.
  intros Hd. unfold _split, tokens.
  destruct (isna v || eq_empty_str v); [done|].
  by rewrite py_split_nonempty.
Qed.

Lemma parse_tokens d series :
  d ≠ "" →
  parse_delimited_column series d true
  = Ok ((λ v, VStr <$> tokens d v) <$> series).
Proof.
  intros Hd. apply rmap_ok. intros v _. by apply _split_tokens.
Qed.

Lemma join_values_strs d (l : list string) :
  join_values d (VStr <$> l) = Ok (VStr (join d l)).
Proof.
  unfold join_values.
  rewrite (rmap_ok _ (λ v, match v with VStr s => s | _ => "" end)).
  - simpl. do 2 f_equal. rewrite <- list_fmap_compose.
    by rewrite <- (list_fmap_id l) at 2.
  - intros v (s & -> & _)%list_elem_of_fmap. done.
Qed.

Lemma normalize_cell_tokens d v :
  d ≠ "" → normalize_cell d v = Ok (VStr (join d (tokens d v))).
Proof.
  intros Hd. unfold normalize_cell. rewrite _split_tokens by done.
  apply join_values_strs.
Qed.

Lemma tokens_nonempty d v : Forall (λ t, is_empty t = false) (tokens d v).
Proof.
  unfold tokens. destruct (isna v || eq_empty_str v); [constructor|].
  apply Forall_forall. by intros t [? _]%list_elem_of_filter.
Qed.

Lemma tokens_stripped d v : Forall (λ t, strip t = t) (tokens d v).
Proof.
  unfold tokens. destruct (isna v || eq_empty_str v); [constructor|].
  apply Forall_forall.
  intros t [_ (s & -> & _)%list_elem_of_fmap]%list_elem_of_filter.
  apply strip_idem.
Qed.

Lemma tokens_char_free c v :
  Forall (λ t, contains (String c "") t = false) (tokens (String c "") v).
Proof.
  unfold tokens. destruct (isna v || eq_empty_str v); [constructor|].
  apply Forall_forall.
  intros t [_ (s & -> & Hs)%list_elem_of_fmap]%list_elem_of_filter.
  apply strip_char_free.
  by eapply (proj1 (Forall_forall _ _) (split_from_char_free c _)).
Qed.

Lemma join_nonempty d t ts :
  is_empty t = false → is_empty (join d (t :: ts)) = false.
Proof.
  destruct t as [|c t]; [done|]. intros _. by rewrite join_head_char.
Qed.

(** Parsing the join of a token list that is in normal form returns the
    list. *)
Lemma tokens_join c ts :
  Forall (λ t, is_empty t = false) ts →
  Forall (λ t, strip t = t) ts →
  Forall (λ t, contains (String c "") t = false) ts →
  tokens (String c "") (VStr (join (String c "") ts)) = ts.
Proof.
  intros Hne Hst Hfree. destruct ts as [|t ts]; [done|].
  unfold tokens. simpl isna. rewrite orb_false_l.
  assert (eq_empty_str (VStr (join (String c "") (t :: ts))) = false) as ->.
  { inversion Hne; subst.
    pose proof (join_nonempty (String c "") t ts H1) as Hj.
    by destruct (join (String c "") (t :: ts)). }
  cbn [py_str]. rewrite split_from_join by done.
  rewrite (list_fmap_ext strip id (t :: ts)), list_fmap_id.
  - by apply filter_all.
  - intros i x Hx. simpl. by eapply (proj1 (Forall_lookup _ _) Hst).
Qed.

Lemma tokens_normalized c v :
  tokens (String c "") (VStr (join (String c "") (tokens (String c "") v)))
  = tokens (String c "") v.
Proof.
  apply tokens_join;
    auto using tokens_nonempty, tokens_stripped, tokens_char_free.
Qed.
End parsing.



(** ** Frames *)

Section frames.
Implicit Types (df : frame) (name : string) (cols : list string).

Lemma index_of_Some name cols j :
  index_of name cols = Some j → cols !! j = Some name.
Proof.
  revert j. induction cols as [|c cols IH]; intros j; simpl; [done|].
  case_decide as Hc; [by intros [= <-]; subst|].
  destruct (index_of name cols) as [k|]; simpl; [|done].
  intros [= <-]. by apply IH.
Qed.

Lemma index_of_None name cols : index_of name cols = None ↔ name ∉ cols.
Proof.
  induction cols as [|c cols IH]; simpl.
  - split; [intros _; apply not_elem_of_nil|done].
  - case_decide as Hc.
    + subst. split; [done|]. intros []. left.
    + rewrite not_elem_of_cons, <- IH.
      destruct (index_of name cols); simpl; split; try done;
        (by intros [_ ?]) || tauto.
Qed.

Lemma index_of_is_Some name cols :
  is_Some (index_of name cols) ↔ name ∈ cols.
Proof.
  rewrite <- not_eq_None_Some, index_of_None.
  split; [apply dec_stable|auto].
Qed.

Lemma index_of_lt name cols j : index_of name cols = Some j → j < length cols.
Proof. intros H%index_of_Some. by eapply lookup_lt_Some. Qed.

Lemma index_of_NoDup name cols j :
  NoDup cols → cols !! j = Some name → index_of name cols = Some j.
Proof.
  intros Hnd Hj.
  destruct (index_of name cols) as [k|] eqn:Hk.
  - apply index_of_Some in Hk. f_equal. by eapply NoDup_lookup.
  - apply index_of_None in Hk. destruct Hk. by eapply list_elem_of_lookup_2.
Qed.

Lemma index_of_app_new name cols :
  name ∉ cols → index_of name (cols ++ [name]) = Some (length cols).
Proof.
  induction cols as [|c cols IH]; simpl.
  - intros _. by rewrite decide_True.
  - intros [Hne Hn]%not_elem_of_cons. rewrite decide_False by done.
    by rewrite IH.
Qed.

Lemma index_of_app_other name other cols :
  name ≠ other → index_of name (cols ++ [other]) = index_of name cols.
Proof.
  intros Hne. induction cols as [|c cols IH]; simpl.
  - by rewrite decide_False.
  - case_decide; [done|]. by rewrite IH.
Qed.

Lemma has_column_index df name :
  has_column df name = true ↔ is_Some (index_of name (columns df)).
Proof.
  unfold has_column. rewrite bool_decide_eq_true. symmetry.
  apply index_of_is_Some.
Qed.

(** A series computed row by row is assigned row by row. *)
Lemma imap_aligned {X} (l0 : list X) (F : X → list value) (g : X → value)
    (h : list value → value → list value) :
  imap (λ k r, h r (default VNA ((g <$> l0) !! k))) (F <$> l0)
  = (λ x, h (F x) (g x)) <$> l0.
Proof.
  apply list_eq. intros i.
  rewrite list_lookup_imap, !list_lookup_fmap.
  by destruct (l0 !! i).
Qed.

Lemma set_col_rows_existing df name j (g : list value → value) :
  index_of name (columns df) = Some j →
  set_col name (g <$> rows df) df
  = Frame (columns df) ((λ r, <[j := g r]> r) <$> rows df).
Proof.
  intros Hj. unfold set_col. rewrite Hj. f_equal.
  pose proof (imap_aligned (rows df) id g (λ r v, <[j := v]> r)) as H.
  by rewrite list_fmap_id in H.
Qed.

Lemma columns_set_col df name series :
  columns (set_col name series df)
  = if decide (name ∈ columns df) then columns df else columns df ++ [name].
Proof.
  unfold set_col. destruct (index_of name (columns df)) as [j|] eqn:Hj.
  - rewrite decide_True; [done|]. apply index_of_is_Some. eauto.
  - rewrite decide_False; [done|]. by apply index_of_None.
Qed.

Lemma length_rows_set_col df name series :
  length (rows (set_col name series df)) = length (rows df).
Proof.
  unfold set_col. destruct (index_of name (columns df)); simpl;
    apply length_imap.
Qed.

Lemma rect_set_col df name series : rect df → rect (set_col name series df).
Proof.
  intros Hr. unfold set_col.
  destruct (index_of name (columns df)) as [j|]; simpl;
    apply Forall_forall; intros r (k & r0 & -> & Hk)%elem_of_lookup_imap;
    apply (proj1 (Forall_lookup _ _) Hr) in Hk.
  - by rewrite length_insert.
  - simpl. rewrite !length_app. simpl. lia.
Qed.

Lemma NoDup_set_col df name series :
  NoDup (columns df) → NoDup (columns (set_col name series df)).
Proof.
  intros Hnd. rewrite columns_set_col. case_decide as Hin; [done|].
  apply NoDup_app. split_and!; [done| |apply NoDup_singleton].
  intros x Hx ->%list_elem_of_singleton. done.
Qed.

Lemma wf_set_col df name series :
  wf_frame df → wf_frame (set_col name series df).
Proof. intros [??]. split; [by apply NoDup_set_col|by apply rect_set_col]. Qed.

Lemma get_col_Ok df name series :
  get_col df name = Ok series →
  ∃ j, index_of name (columns df) = Some j ∧ series = cell_at j <$> rows df.
Proof.
  unfold get_col. destruct (index_of name (columns df)); [|done].
  intros [= <-]. eauto.
Qed.


Lemma get_col_length df name series :
  get_col df name = Ok series → length series = length (rows df).
Proof. intros (j & _ & ->)%get_col_Ok. apply length_fmap. Qed.

(** Reading back the column just assigned. *)
Lemma get_col_set_col_eq df name series :
  rect df → length series = length (rows df) →
  get_col (set_col name series df) name = Ok series.
Proof.
  intros Hr Hlen. unfold get_col, set_col.
  destruct (index_of name (columns df)) as [j|] eqn:Hj; simpl.
  - rewrite Hj. f_equal. apply list_eq. intros i.
    rewrite list_lookup_fmap, list_lookup_imap.
    destruct (rows df !! i) as [r|] eqn:Hi; simpl.
    + destruct (lookup_lt_is_Some_2 series i) as [v Hv].
      { rewrite Hlen. by eapply lookup_lt_Some. }
      rewrite Hv. simpl. unfold cell_at.
      rewrite list_lookup_insert_eq; [done|].
      rewrite (proj1 (Forall_lookup _ _) Hr i r Hi).
      by eapply index_of_lt.
    + symmetry. apply lookup_ge_None. rewrite Hlen.
      by apply lookup_ge_None.
  - apply index_of_None in Hj. rewrite index_of_app_new by done.
    f_equal. apply list_eq. intros i.
    rewrite list_lookup_fmap, list_lookup_imap.
    destruct (rows df !! i) as [r|] eqn:Hi; simpl.
    + destruct (lookup_lt_is_Some_2 series i) as [v Hv].
      { rewrite Hlen. by eapply lookup_lt_Some. }
      rewrite Hv. simpl. unfold cell_at.
      rewrite <- (proj1 (Forall_lookup _ _) Hr i r Hi).
      by rewrite lookup_app_r, Nat.sub_diag by lia.
    + symmetry. apply lookup_ge_None. rewrite Hlen.
      by apply lookup_ge_None.
Qed.

(** Assigning one column leaves every other column as it was. *)
Lemma get_col_set_col_ne df name other series :
  rect df → name ≠ other →
  get_col (set_col name series df) other = get_col df other.
Proof.
  intros Hr Hne. unfold get_col, set_col.
  destruct (index_of name (columns df)) as [j|] eqn:Hj; simpl.
  - destruct (index_of other (columns df)) as [k|] eqn:Hk; [|done].
    f_equal. apply list_eq. intros i.
    rewrite !list_lookup_fmap, list_lookup_imap.
    destruct (rows df !! i) as [r|]; simpl; [|done].
    f_equal. unfold cell_at. rewrite list_lookup_insert_ne; [done|].
    intros ->. apply index_of_Some in Hj, Hk. congruence.
  - rewrite index_of_app_other by done.
    destruct (index_of other (columns df)) as [k|] eqn:Hk; [|done].
    f_equal. apply list_eq. intros i.
    rewrite !list_lookup_fmap, list_lookup_imap.
    destruct (rows df !! i) as [r|] eqn:Hi; simpl; [|done].
    f_equal. unfold cell_at. rewrite lookup_app_l; [done|].
    rewrite (proj1 (Forall_lookup _ _) Hr i r Hi).
    by eapply index_of_lt.
Qed.
End frames.

(** ** Normalisation *)

Section normalize.
Implicit Types (d column : string) (df : frame).

Lemma rmap_join_tokens d (series : list value) :
  rmap (join_values d) ((λ v, VStr <$> tokens d v) <$> series)
  = Ok ((λ v, VStr (join d (tokens d v))) <$> series).
Proof.
  induction series as [|v series IH]; [done|].
  rewrite !fmap_cons. cbn [rmap]. rewrite join_values_strs, IH. done.
Qed.

(** The frame [normalize_delimited_column] returns, row by row. *)
Lemma normalize_delimited_column_rows d df column j :
  d ≠ "" → index_of column (columns df) = Some j →
  normalize_delimited_column df column d
  = Ok (Frame (columns df)
          ((λ r, <[j := VStr (join d (tokens d (cell_at j r)))]> r)
             <$> rows df)).
Proof.
  intros Hd Hj. unfold normalize_delimited_column.
  assert (has_column df column = true) as ->.
  { apply has_column_index. eauto. }
  unfold get_col. rewrite Hj. simpl.
  rewrite parse_tokens by done. simpl.
  rewrite rmap_join_tokens. simpl.
  rewrite <- list_fmap_compose.
  by rewrite (set_col_rows_existing df column j).
Qed.

Lemma normalize_delimited_column_absent d df column :
  index_of column (columns df) = None →
  normalize_delimited_column df column d = Ok df.
Proof.
  intros Hj. unfold normalize_delimited_column.
  destruct (has_column df column) eqn:Hc; [|done].
  apply has_column_index in Hc as [j Hc]. congruence.
Qed.

(** The column of the normalised frame holds the normalised cells. *)
Lemma normalize_delimited_column_cells d df column series :
  d ≠ "" → rect df → get_col df column = Ok series →
  ∃ df1, normalize_delimited_column df column d = Ok df1 ∧
         rmap (normalize_cell d) series
         = Ok ((λ v, VStr (join d (tokens d v))) <$> series) ∧
         get_col df1 column
         = Ok ((λ v, VStr (join d (tokens d v))) <$> series).
Proof.
  intros Hd Hr (j & Hj & ->)%get_col_Ok.
  eexists. split; [by apply normalize_delimited_column_rows|].
  split.
  { apply rmap_ok. intros v _. by apply normalize_cell_tokens. }
  unfold get_col. simpl. rewrite Hj. f_equal.
  rewrite <- !list_fmap_compose. apply list_fmap_ext.
  intros i r Hi. simpl. unfold cell_at at 1.
  rewrite list_lookup_insert_eq; [done|].
  rewrite (proj1 (Forall_lookup _ _) Hr i r Hi). by eapply index_of_lt.
Qed.
End normalize.

(** C2.  For a one-character delimiter, normalising twice equals
    normalising once: on every cell (missing, string, or any other value
    of the model), and on every frame and column. *)
Theorem normalize_delimited_column_idempotent (c : ascii) :
  let d := String c "" in
  (∀ v, ∃ v1, normalize_cell d v = Ok v1 ∧ normalize_cell d v1 = Ok v1) ∧
  (∀ df column,
     ∃ df1, normalize_delimited_column df column d = Ok df1 ∧
            normalize_delimited_column df1 column d = Ok df1).
Proof.
  intros d. assert (d ≠ "") as Hd by done. split.
  - intros v. exists (VStr (join d (tokens d v))).
    rewrite !normalize_cell_tokens by done.
    split; [done|]. subst d. by rewrite tokens_normalized.
  - intros df column.
    destruct (index_of column (columns df)) as [j|] eqn:Hj.
    + eexists. split; [by apply normalize_delimited_column_rows|].
      rewrite (normalize_delimited_column_rows d _ column j) by done.
      simpl. do 2 f_equal. rewrite <- list_fmap_compose.
      apply list_fmap_ext. intros i r _. simpl.
      destruct (decide (j < length r)) as [Hlt|Hge].
      * unfold cell_at at 1. rewrite list_lookup_insert_eq by done. simpl.
        subst d. by rewrite tokens_normalized, list_insert_insert_eq.
      * rewrite !(list_insert_ge r) by lia. done.
    + exists df. by rewrite !normalize_delimited_column_absent.
Qed.

(** ** Fixed-width split *)

Section split.
Implicit Types (d column prefix : string) (df out : frame).
Implicit Types (lists : list (list value)).

Lemma slot_name_inj prefix : Inj (=) (=) (slot_name prefix).
Proof.
  intros i j Hij. unfold slot_name in Hij.
  apply (inj (String.app prefix)) in Hij.
  apply (inj (String.app "_")) in Hij.
  by apply (inj pretty) in Hij.
Qed.

Lemma slot_value_lookup i (lst : list value) :
  slot_value i lst = default VNA (lst !! i).
Proof.
  unfold slot_value. case_decide as Hi; [done|].
  by rewrite lookup_ge_None_2 by lia.
Qed.

Lemma length_range n : length (range n) = Z.to_nat n.
Proof. apply length_seq. Qed.

Lemma elem_of_range n i : i ∈ range n ↔ (Z.of_nat i < n)%Z.
Proof. unfold range. rewrite elem_of_seq. lia. Qed.

Lemma NoDup_range n : NoDup (range n).
Proof. apply NoDup_seq. Qed.

Lemma NoDup_slot_names prefix n : NoDup (slot_name prefix <$> range n).
Proof. apply NoDup_fmap_2; [apply slot_name_inj|apply NoDup_range]. Qed.

Lemma filter_ext_in {A} (P Q : A → Prop) `{!∀ x, Decision (P x)}
    `{!∀ x, Decision (Q x)} (l : list A) :
  (∀ x, x ∈ l → P x ↔ Q x) → filter P l = filter Q l.
Proof.
  induction l as [|x l IH]; intros Hext; [done|].
  rewrite !filter_cons.
  rewrite IH by (intros y Hy; apply Hext; by right).
  pose proof (Hext x (list_elem_of_here x l)) as Hx.
  destruct (decide (P x)) as [HP|HP], (decide (Q x)) as [HQ|HQ];
    try done; tauto.
Qed.

(** The loop [for i in ...: out[f"{prefix}_{i}"] = ...]. *)
Lemma split_loop prefix lists idxs out :
  rect out → length lists = length (rows out) → NoDup idxs →
  let out' :=
    foldl (λ out i,
             set_col (slot_name prefix i) (slot_value i <$> lists) out)
          out idxs in
  rect out' ∧
  length (rows out') = length (rows out) ∧
  (∀ i, i ∈ idxs →
     get_col out' (slot_name prefix i) = Ok (slot_value i <$> lists)) ∧
  (∀ m, m ∉ slot_name prefix <$> idxs → get_col out' m = get_col out m) ∧
  columns out'
  = columns out
    ++ filter (λ n, n ∉ columns out) (slot_name prefix <$> idxs).
Proof.
  revert out. induction idxs as [|i idxs IH]; intros out Hr Hlen Hnd; simpl.
  { split_and!; try done.
    - intros i Hi. by apply elem_of_nil in Hi.
    - by rewrite app_nil_r. }
  apply NoDup_cons in Hnd as [Hi Hnd].
  set (out1 := set_col (slot_name prefix i) (slot_value i <$> lists) out).
  assert (rect out1) as Hr1 by by apply rect_set_col.
  assert (length (rows out1) = length (rows out)) as Hlen1
    by apply length_rows_set_col.
  destruct (IH out1 Hr1) as (Hr' & Hlen' & Hnew & Hold & Hcols);
    [congruence|done|].
  assert (slot_name prefix i ∉ slot_name prefix <$> idxs) as Hfresh.
  { intros (j & Hj & Hin)%list_elem_of_fmap.
    apply slot_name_inj in Hj. by subst. }
  split_and!; [done|congruence| | |].
  - intros j [->|Hj]%elem_of_cons; [|by apply Hnew].
    rewrite Hold by done. apply get_col_set_col_eq; [done|].
    by rewrite length_fmap.
  - intros m [Hm Hms]%not_elem_of_cons.
    rewrite Hold by done. apply get_col_set_col_ne; done.
  - rewrite Hcols. unfold out1. rewrite columns_set_col.
    rewrite filter_cons.
    destruct (decide (slot_name prefix i ∈ columns out)) as [Hin|Hin].
    + by rewrite decide_False by auto.
    + rewrite decide_True by done.
      rewrite <- app_assoc. simpl. do 2 f_equal.
      apply filter_ext_in. intros n Hn.
      rewrite not_elem_of_app, list_elem_of_singleton.
      split; [tauto|]. intros Hnc. split; [done|]. by intros ->.
Qed.

Lemma inferred_max_bound lists :
  (∀ l, l ∈ lists → (Z.of_nat (length l) ≤ inferred_max lists)%Z) ∧
  (lists = [] → inferred_max lists = 0%Z) ∧
  (lists ≠ [] →
   ∃ l, l ∈ lists ∧ inferred_max lists = Z.of_nat (length l)).
Proof.
  split_and!.
  - intros l Hl. destruct lists as [|l0 lists]; [by apply elem_of_nil in Hl|].
    unfold inferred_max. apply inj_le, max_list_elem_of_le.
    by apply list_elem_of_fmap_2.
  - by intros ->.
  - intros Hne. destruct lists as [|l0 lists]; [done|].
    unfold inferred_max.
    pose proof (max_list_elem_of (length <$> l0 :: lists)) as Hm.
    apply elem_of_cons in Hm as [Hm|Hm]; [| |done].
    + exists l0. split; [left|]. by rewrite Hm.
    + apply list_elem_of_fmap in Hm as (l & Hm & Hl).
      exists l. split; [by right|]. by rewrite Hm.
Qed.

(** The frame [split_delimited_to_columns] returns. *)
Lemma split_delimited_to_columns_Ok df column prefix d max_parts series :
  d ≠ "" → get_col df column = Ok series →
  let lists := (λ v, VStr <$> tokens d v) <$> series in
  split_delimited_to_columns df column prefix d max_parts
  = Ok (foldl (λ out i,
                 set_col (slot_name prefix i) (slot_value i <$> lists) out)
              df (range (max_len max_parts lists))).
Proof.
  intros Hd Hs lists. unfold split_delimited_to_columns.
  assert (has_column df column = true) as ->.
  { apply get_col_Ok in Hs as (j & Hj & _). apply has_column_index. eauto. }
  rewrite Hs. simpl. by rewrite parse_tokens.
Qed.

Lemma split_delimited_to_columns_absent df column prefix d max_parts :
  has_column df column = false →
  split_delimited_to_columns df column prefix d max_parts = Ok df.
Proof. intros H. unfold split_delimited_to_columns. by rewrite H. Qed.
End split.

(** C5.  For a table that has the column and a delimiter that is not
    empty, [split_delimited_to_columns] parses every cell, fixes one width for the whole column ([max_parts]
    when it is given, otherwise the largest token count of any row, and 0
    for a table without rows), and assigns the columns [{prefix}_{i}] for
    [i] in [range(width)]: pairwise distinct labels, as many as the width.
    The cell of [{prefix}_{i}] in a row is the [i]-th token of that row,
    and null when the row has no [i]-th token; no token is itself null.
    Labels that were not yet in the table are appended in slot order, and
    the row count is unchanged. *)
Theorem split_delimited_to_columns_slots
    (df : frame) (column prefix d : string) (max_parts : option Z)
    (series : list value) :
  wf_frame df → d ≠ "" → get_col df column = Ok series →
  ∃ lists out,
    parse_delimited_column series d true = Ok lists ∧
    split_delimited_to_columns df column prefix d max_parts = Ok out ∧
    let width := max_len max_parts lists in
    (∀ m, max_parts = Some m → width = m) ∧
    (max_parts = None →
       (∀ l, l ∈ lists → (Z.of_nat (length l) ≤ width)%Z) ∧
       (lists = [] → width = 0%Z) ∧
       (lists ≠ [] → ∃ l, l ∈ lists ∧ width = Z.of_nat (length l))) ∧
    NoDup (slot_name prefix <$> range width) ∧
    length (slot_name prefix <$> range width) = Z.to_nat width ∧
    columns out
    = columns df
      ++ filter (λ n, n ∉ columns df) (slot_name prefix <$> range width) ∧
    length (rows out) = length (rows df) ∧
    (∀ i, (Z.of_nat i < width)%Z →
       get_col out (slot_name prefix i)
       = Ok ((λ lst, default VNA (lst !! i)) <$> lists)) ∧
    (∀ lst, lst ∈ lists → VNA ∉ lst).
Proof.
  intros [Hnd Hr] Hd Hs.
  set (lists := (λ v, VStr <$> tokens d v) <$> series).
  exists lists,
    (foldl (λ out i,
              set_col (slot_name prefix i) (slot_value i <$> lists) out)
           df (range (max_len max_parts lists))).
  split; [by apply parse_tokens|].
  split; [by apply split_delimited_to_columns_Ok|].
  intros width.
  destruct (split_loop prefix lists (range width) df)
    as (_ & Hlen & Hnew & _ & Hcols); [done| |apply NoDup_range|].
  { unfold lists. rewrite length_fmap. by eapply get_col_length. }
  split_and!.
  - by intros m ->.
  - intros ->. apply inferred_max_bound.
  - apply NoDup_slot_names.
  - by rewrite length_fmap, length_range.
  - done.
  - done.
  - intros i Hi. rewrite Hnew by by apply elem_of_range.
    f_equal. apply list_fmap_ext. intros ???. apply slot_value_lookup.
  - intros lst (v & -> & _)%list_elem_of_fmap (t & ? & _)%list_elem_of_fmap.
    done.
Qed.

Lemma split_delimited_to_columns_slots_witness :
  ∃ out,
    split_delimited_to_columns sample_units "items" "item" ";" (Some 3%Z)
    = Ok out ∧
    get_col out "item_1" = Ok [VStr "ItemB"; VNA; VStr "B"] ∧
    get_col out "item_2" = Ok [VNA; VNA; VStr "C"].
Proof.
  destruct (split_delimited_to_columns_slots sample_units "items" "item" ";"
              (Some 3%Z) [VStr " ItemA ;; ItemB"; VNA; VStr "A;B;C;D"])
    as (lists & out & Hp & Ho & _ & _ & _ & _ & _ & _ & Hget & _).
  - by apply (bool_decide_unpack _); vm_compute.
  - done.
  - reflexivity.
  - exists out. split; [done|].
    vm_compute in Hp. injection Hp as <-.
    split; [apply (Hget 1%nat)|apply (Hget 2%nat)]; done.
Defined.

(** ** Split, then rejoin *)

Section rejoin.
Implicit Types (d column prefix : string) (df out : frame).

Lemma fmap_lookup_seq (l : list value) :
  (λ i, default VNA (l !! i)) <$> seq 0 (length l) = l.
Proof.
  apply list_eq. intros i. rewrite list_lookup_fmap.
  destruct (decide (i < length l)) as [Hi|Hi].
  - rewrite lookup_seq_lt by done. simpl.
    by destruct (lookup_lt_is_Some_2 l i Hi) as [x ->].
  - rewrite lookup_seq_ge, lookup_ge_None_2 by lia. done.
Qed.

(** Padding a list of non-null values with nulls and dropping the nulls
    gives the list back. *)
Lemma non_null_padded (l : list value) (n : nat) :
  VNA ∉ l → (length l ≤ n)%nat →
  non_null ((λ i, default VNA (l !! i)) <$> seq 0 n) = l.
Proof.
  intros Hl Hn. replace n with (length l + (n - length l))%nat by lia.
  rewrite seq_app, fmap_app. unfold non_null. rewrite filter_app.
  rewrite fmap_lookup_seq, filter_all, filter_none.
  - apply app_nil_r.
  - apply Forall_forall. intros v (i & -> & Hi)%list_elem_of_fmap.
    apply elem_of_seq in Hi. rewrite lookup_ge_None_2 by lia. done.
  - apply Forall_forall. intros v Hv. destruct v; try done.
Qed.

Lemma row_slots_split df column prefix d max_parts series k cell :
  rect df → d ≠ "" →
  get_col df column = Ok series → series !! k = Some cell →
  let lists := (λ v, VStr <$> tokens d v) <$> series in
  ∃ out,
    split_delimited_to_columns df column prefix d max_parts = Ok out ∧
    row_slots out prefix (max_len max_parts lists) k
    = Ok ((λ i, default VNA ((VStr <$> tokens d cell) !! i))
            <$> range (max_len max_parts lists)).
Proof.
  intros Hr Hd Hs Hk lists.
  eexists. split; [by apply split_delimited_to_columns_Ok|].
  fold lists.
  destruct (split_loop prefix lists (range (max_len max_parts lists)) df)
    as (_ & _ & Hnew & _); [done| |apply NoDup_range|].
  { unfold lists. rewrite length_fmap. by eapply get_col_length. }
  assert (lists !! k = Some (VStr <$> tokens d cell)) as Hlk.
  { unfold lists. by rewrite list_lookup_fmap, Hk. }
  unfold row_slots. apply rmap_ok. intros i Hi.
  rewrite Hnew by done. simpl. f_equal.
  rewrite (list_lookup_fmap (slot_value i)), Hlk. simpl.
  apply slot_value_lookup.
Qed.
End rejoin.

(** C8.  Take a row whose cell parses, under a one-character delimiter,
    to tokens that are no more than the width.  After
    [split_delimited_to_columns], the non-null slot values of that row, in
    slot order, are exactly the tokens; joining them with the delimiter
    gives the tokens joined, and parsing that text returns the same token
    sequence.  (No token of a parsed cell contains the delimiter.) *)
Theorem split_then_join_slots
    (df : frame) (column prefix : string) (c : ascii) (max_parts : option Z)
    (series : list value) (k : nat) (cell : value) (lists : list (list value)) :
  let d := String c "" in
  wf_frame df → get_col df column = Ok series → series !! k = Some cell →
  parse_delimited_column series d true = Ok lists →
  (Z.of_nat (length (tokens d cell)) ≤ max_len max_parts lists)%Z →
  ∃ out slots,
    _split d true cell = Ok (VStr <$> tokens d cell) ∧
    Forall (λ t, contains d t = false) (tokens d cell) ∧
    split_delimited_to_columns df column prefix d max_parts = Ok out ∧
    row_slots out prefix (max_len max_parts lists) k = Ok slots ∧
    non_null slots = VStr <$> tokens d cell ∧
    join_values d (non_null slots) = Ok (VStr (join d (tokens d cell))) ∧
    _split d true (VStr (join d (tokens d cell)))
    = Ok (VStr <$> tokens d cell).
Proof.
  intros d [_ Hr] Hs Hk Hp Hw. assert (d ≠ "") as Hd by done.
  rewrite parse_tokens in Hp by done. injection Hp as <-.
  destruct (row_slots_split df column prefix d max_parts series k cell)
    as (out & Ho & Hslots); [done..|].
  exists out. eexists. split_and!; [| |done|done| | |].
  - by apply _split_tokens.
  - apply tokens_char_free.
  - unfold range. apply non_null_padded.
    + by intros (t & ? & _)%list_elem_of_fmap.
    + rewrite length_fmap. lia.
  - unfold range. rewrite non_null_padded.
    + apply join_values_strs.
    + by intros (t & ? & _)%list_elem_of_fmap.
    + rewrite length_fmap. lia.
  - rewrite _split_tokens by done. subst d. by rewrite tokens_normalized.
Qed.

Lemma split_then_join_slots_witness :
  ∃ out slots,
    split_delimited_to_columns sample_units "items" "item" ";" (Some 3%Z)
    = Ok out ∧
    row_slots out "item" 3 0 = Ok slots ∧
    non_null slots = [VStr "ItemA"; VStr "ItemB"] ∧
    join_values ";" (non_null slots) = Ok (VStr "ItemA;ItemB").
Proof.
  destruct (split_then_join_slots sample_units "items" "item" ";"%char
              (Some 3%Z) [VStr " ItemA ;; ItemB"; VNA; VStr "A;B;C;D"]
              0 (VStr " ItemA ;; ItemB")
              [[VStr "ItemA"; VStr "ItemB"]; [];
               [VStr "A"; VStr "B"; VStr "C"; VStr "D"]])
    as (out & slots & _ & _ & Ho & Hslots & Hnn & Hj & _).
  - by apply (bool_decide_unpack _); vm_compute.
  - reflexivity.
  - reflexivity.
  - reflexivity.
  - by vm_compute.
  - exists out, slots. split_and!; done.
Defined.

(** ** Explode *)

Section explode.
Implicit Types (d column : string) (df : frame) (j : nat).
Implicit Types (rs : list (list value)) (lists : list (list value)).

Lemma explode_rows_cons j r rs lst lists :
  explode_rows j (r :: rs) (lst :: lists)
  = match lst with
    | [] => [<[j := VNA]> r]
    | _ => (λ t, <[j := t]> r) <$> lst
    end ++ explode_rows j rs lists.
Proof. reflexivity. Qed.

Lemma cell_at_insert j r v : j < length r → cell_at j (<[j := v]> r) = v.
Proof. intros Hj. unfold cell_at. by rewrite list_lookup_insert_eq. Qed.

Lemma cell_at_insert_na j r : cell_at j (<[j := VNA]> r) = VNA.
Proof.
  destruct (decide (j < length r)); [by apply cell_at_insert|].
  unfold cell_at. by rewrite lookup_ge_None_2 by (rewrite length_insert; lia).
Qed.

(** [dropna] after [explode] removes exactly the rows that stand for an
    empty list. *)
Lemma explode_rows_kept j rs lists :
  Forall (λ r, j < length r) rs →
  Forall (λ lst, VNA ∉ lst) lists →
  filter (λ r, isna (cell_at j r) = false) (explode_rows j rs lists)
  = mjoin (zip_with (λ r lst, (λ t, <[j := t]> r) <$> lst) rs lists).
Proof.
  intros Hrs. revert lists.
  induction Hrs as [|r rs Hr Hrs IH]; intros [|lst lists] Hl; try done.
  apply Forall_cons in Hl as [Hlst Hl].
  rewrite explode_rows_cons, filter_app, IH by done. simpl. f_equal.
  destruct lst as [|t lst].
  - rewrite filter_cons_False; [done|]. by rewrite cell_at_insert_na.
  - apply filter_all, Forall_forall.
    intros r' (v & -> & Hv)%list_elem_of_fmap.
    rewrite cell_at_insert by done. destruct v; try done.
Qed.

Lemma length_exploded j rs lists :
  length rs = length lists →
  length (mjoin (zip_with (λ r lst, (λ t, <[j := t]> r) <$> lst) rs lists))
  = sum_list (length <$> lists).
Proof.
  revert lists. induction rs as [|r rs IH]; intros [|lst lists] Hlen;
    simplify_eq/=; [done|].
  by rewrite length_app, length_fmap, IH.
Qed.

Lemma cells_exploded j rs lists :
  Forall (λ r, j < length r) rs → length rs = length lists →
  cell_at j <$> mjoin (zip_with (λ r lst, (λ t, <[j := t]> r) <$> lst) rs lists)
  = mjoin lists.
Proof.
  intros Hrs. revert lists.
  induction Hrs as [|r rs Hr Hrs IH]; intros [|lst lists] Hlen;
    simplify_eq/=; [done|].
  rewrite fmap_app, IH by done. f_equal.
  rewrite <- list_fmap_compose.
  rewrite <- (list_fmap_id lst) at 2. apply list_fmap_ext.
  intros i t _. simpl. by apply cell_at_insert.
Qed.

Lemma renamed_single column new c :
  renamed [(column, new)] c = if decide (c = column) then new else c.
Proof. reflexivity. Qed.
End explode.

(** C7.  For a table that has the column, [explode_delimited_column]
    returns one row per parsed token: every input row yields, in order,
    one copy of itself per token with the token in place of the cell, so a
    row whose cell parses to no token yields no row, and the row count is
    the sum of the token counts.  The exploded column keeps its position
    and carries the label [value_name], or the label of the column when
    [value_name] is absent or empty. *)
Theorem explode_delimited_column_rows
    (df : frame) (column d : string) (value_name : option string)
    (series : list value) :
  wf_frame df → d ≠ "" → get_col df column = Ok series →
  ∃ lists out j,
    parse_delimited_column series d true = Ok lists ∧
    explode_delimited_column df column d value_name = Ok out ∧
    columns df !! j = Some column ∧
    length (rows out) = sum_list (length <$> lists) ∧
    rows out
    = mjoin (zip_with (λ r lst, (λ t, <[j := t]> r) <$> lst) (rows df) lists) ∧
    cell_at j <$> rows out = mjoin lists ∧
    length (columns out) = length (columns df) ∧
    columns out !! j = Some (resolve_value_name value_name column) ∧
    (∀ v, value_name = Some v → v ≠ "" → columns out !! j = Some v).
Proof.
  intros [Hnd Hr] Hd Hs.
  pose proof Hs as (j & Hj & Hseries)%get_col_Ok.
  set (lists := (λ v, VStr <$> tokens d v) <$> series).
  assert (Forall (λ r, j < length r) (rows df)) as Hjr.
  { eapply Forall_impl; [exact Hr|]. intros r ->. by eapply index_of_lt. }
  assert (Forall (λ lst : list value, VNA ∉ lst) lists) as Hna.
  { apply Forall_forall.
    intros lst (v & -> & _)%list_elem_of_fmap (t & ? & _)%list_elem_of_fmap.
    done. }
  assert (length (rows df) = length lists) as Hlen.
  { unfold lists. rewrite length_fmap. symmetry. by eapply get_col_length. }
  assert (columns df !! j = Some column) as Hcol by by apply index_of_Some.
  assert (∀ new, (renamed [(column, new)] <$> columns df) !! j = Some new)
    as Hren.
  { intros new. rewrite list_lookup_fmap, Hcol. simpl.
    by rewrite decide_True. }
  exists lists, (rename_cols [(column, resolve_value_name value_name column)]
                   (Frame (columns df)
                      (mjoin (zip_with (λ r lst, (λ t, <[j := t]> r) <$> lst)
                                (rows df) lists)))), j.
  split_and!.
  - by apply parse_tokens.
  - unfold explode_delimited_column. rewrite Hj, Hs. simpl.
    rewrite parse_tokens by done. simpl.
    by rewrite explode_rows_kept.
  - done.
  - simpl. by apply length_exploded.
  - done.
  - simpl. by apply cells_exploded.
  - simpl. by rewrite length_fmap.
  - apply Hren.
  - intros v -> Hv. simpl. destruct v; [done|]. apply Hren.
Qed.

Lemma explode_delimited_column_rows_witness :
  ∃ out,
    explode_delimited_column sample_units "items" ";" (Some "item") = Ok out ∧
    length (rows out) = 6 ∧
    columns out !! 4 = Some "item".
Proof.
  destruct (explode_delimited_column_rows sample_units "items" ";"
              (Some "item") [VStr " ItemA ;; ItemB"; VNA; VStr "A;B;C;D"])
    as (lists & out & j & Hp & Ho & Hj & Hlen & _ & _ & _ & _ & Hname).
  - by apply (bool_decide_unpack _); vm_compute.
  - done.
  - reflexivity.
  - exists out. split; [done|].
    vm_compute in Hp. injection Hp as <-.
    assert (j = 4) as ->.
    { eapply NoDup_lookup; [|exact Hj|reflexivity].
      by apply (bool_decide_unpack _); vm_compute. }
    split; [exact Hlen|]. by apply Hname.
Defined.

(** ** The two column splitters *)

Section splitters.
Implicit Types (d column prefix : string) (df out : frame) (j k : nat).







(** *** Dropping and selecting columns *)



End splitters.

Section agreement.
Implicit Types (d column prefix : string) (df out : frame).


End agreement.




(** ** The structural validator *)

Section validator.
Implicit Types (m k v : value) (keys vals : list value).






End validator.

Section validator_result.
Implicit Types (keys vals : list value) (expected : Z).


End validator_result.



(** ** The file system *)

Section world.
Implicit Types (p q : path) (w : world) (f : gmap path node).


Lemma bind_step {A B} (m : M A) (k : A → M B) w a w1 :
  m w = (Ok a, w1) → bind m k w = k a w1.
Proof. intros H. unfold bind. by rewrite H. Qed.

Lemma bind_raise {A B} (m : M A) (k : A → M B) w e w1 :
  m w = (Raise e, w1) → bind m k w = (Raise e, w1).
Proof. intros H. unfold bind. by rewrite H. Qed.

Lemma node_at_insert f p n q :
  p ≠ [] →
  node_at (<[p := n]> f) q = if decide (p = q) then Some n else node_at f q.
Proof.
  intros Hp. destruct q as [|x q]; simpl.
  - by rewrite decide_False.
  - apply lookup_insert.
Qed.

Lemma only_adds_dirs_refl w : only_adds_dirs w w.
Proof. split; [done|]. by left. Qed.

Lemma only_adds_dirs_trans w1 w2 w3 :
  only_adds_dirs w1 w2 → only_adds_dirs w2 w3 → only_adds_dirs w1 w3.
Proof.
  intros [Hr1 H1] [Hr2 H2]. split; [congruence|]. intros q.
  destruct (H1 q) as [E1|[E1 E1']], (H2 q) as [E2|[E2 E2']].
  - left. congruence.
  - right. split; congruence.
  - right. split; congruence.
  - congruence.
Qed.

Lemma only_adds_dirs_file w w' q df :
  only_adds_dirs w w' →
  node_at (fs w') q = Some (File df) ↔ node_at (fs w) q = Some (File df).
Proof.
  intros [_ H]. destruct (H q) as [->|[E E']]; [done|].
  rewrite E, E'. split; done.
Qed.

Lemma os_mkdir_only_adds p w : only_adds_dirs w (os_mkdir p w).2.
Proof.
  unfold os_mkdir. destruct p as [|x parent]; [apply only_adds_dirs_refl|].
  destruct (node_at (fs w) (x :: parent)) eqn:Hp;
    [apply only_adds_dirs_refl|].
  destruct (node_at (fs w) parent) as [[|df]|];
    try apply only_adds_dirs_refl.
  split; [done|]. intros q. cbn [snd fs].
  rewrite node_at_insert by done. case_decide as Hq; [subst|by left].
  right. done.
Qed.

Lemma mkdir_tolerate_same exist_ok p e w : (mkdir_tolerate exist_ok p e w).2 = w.
Proof. unfold mkdir_tolerate. by destruct (_ || _). Qed.

Lemma mkdir_single_only_adds exist_ok p w :
  only_adds_dirs w (mkdir_single exist_ok p w).2.
Proof.
  unfold mkdir_single. pose proof (os_mkdir_only_adds p w) as H.
  destruct (os_mkdir p w) as [[[]|e] w1]; [done|].
  destruct e; try done; by rewrite mkdir_tolerate_same.
Qed.

(** [Path.mkdir] never touches a file and never reads. *)
Lemma path_mkdir_only_adds parents exist_ok p w :
  only_adds_dirs w (path_mkdir parents exist_ok p w).2.
Proof.
  revert parents exist_ok w.
  induction p as [|x parent IH]; intros parents exist_ok w.
  - cbn [path_mkdir os_mkdir]. rewrite mkdir_tolerate_same.
    apply only_adds_dirs_refl.
  - cbn [path_mkdir]. pose proof (os_mkdir_only_adds (x :: parent) w) as H.
    destruct (os_mkdir (x :: parent) w) as [[[]|e] w1]; [done|].
    destruct e; try (by rewrite mkdir_tolerate_same).
    destruct parents; [|done]. cbn [negb].
    specialize (IH true true w1).
    destruct (path_mkdir true true parent w1) as [[[]|e] w2].
    + eapply only_adds_dirs_trans; [exact H|].
      eapply only_adds_dirs_trans; [exact IH|].
      apply mkdir_single_only_adds.
    + eapply only_adds_dirs_trans; [exact H|exact IH].
Qed.
End world.

Section mkdir.
Implicit Types (p q : path) (w : world) (f : gmap path node).

Lemma suffix_cons_case q x p :
  q `suffix_of` x :: p → q = x :: p ∨ q `suffix_of` p.
Proof.
  intros [[|y k] Hk]; simplify_eq/=; [by left|]. right. by exists k.
Qed.

Lemma wf_fs_ancestors f p q :
  wf_fs f → is_Some (node_at f p) → q `suffix_of` p → q ≠ p →
  node_at f q = Some Dir.
Proof.
  intros Hwf. induction p as [|x p IH]; intros Hp Hq Hne.
  - apply suffix_nil_inv in Hq. done.
  - apply suffix_cons_case in Hq as [->|Hq]; [done|].
    destruct Hp as [n Hp]. simpl in Hp. apply Hwf in Hp.
    destruct (decide (q = p)) as [->|Hqp]; [done|].
    apply IH; [by rewrite Hp|done..].
Qed.

Lemma wf_fs_insert_dir f x parent :
  wf_fs f → node_at f parent = Some Dir →
  wf_fs (<[x :: parent := Dir]> f).
Proof.
  intros Hwf Hparent y q n. rewrite lookup_insert.
  rewrite node_at_insert by done.
  case_decide as Hyq.
  - intros _. injection Hyq as <- <-.
    case_decide as Heq; [done|exact Hparent].
  - intros Hn%Hwf. by case_decide.
Qed.

(** [Path.mkdir(parents=True)] succeeds when the target is missing (or,
    with [exist_ok], a directory) and no ancestor is a regular file: the
    target and all its ancestors are then directories, and nothing else
    has changed. *)
Lemma path_mkdir_creates p exist_ok w :
  wf_fs (fs w) → no_file_above p w →
  (node_at (fs w) p = None ∨
   (exist_ok = true ∧ node_at (fs w) p = Some Dir)) →
  ∃ w', path_mkdir true exist_ok p w = (Ok tt, w') ∧
        reads w' = reads w ∧
        wf_fs (fs w') ∧
        (∀ q, q `suffix_of` p → node_at (fs w') q = Some Dir) ∧
        (∀ q, ¬ q `suffix_of` p → node_at (fs w') q = node_at (fs w) q).
Proof.
  revert exist_ok w. induction p as [|x parent IH]; intros exist_ok w Hwf Hnf Hp.
  - destruct Hp as [Hp|[-> _]]; [done|].
    exists w. split_and!; try done.
    by intros q ->%suffix_nil_inv.
  - destruct Hp as [Hp|[-> Hp]].
    + cbn [path_mkdir os_mkdir]. rewrite Hp.
      assert (∀ w1,
                reads w1 = reads w → wf_fs (fs w1) →
                node_at (fs w1) (x :: parent) = None →
                node_at (fs w1) parent = Some Dir →
                (∀ q, q `suffix_of` parent → node_at (fs w1) q = Some Dir) →
                os_mkdir (x :: parent) w1
                = (Ok tt, World (<[x :: parent := Dir]> (fs w1)) (reads w1)) ∧
                wf_fs (<[x :: parent := Dir]> (fs w1)) ∧
                (∀ q, q `suffix_of` x :: parent →
                      node_at (<[x :: parent := Dir]> (fs w1)) q = Some Dir) ∧
                (∀ q, ¬ q `suffix_of` x :: parent →
                      node_at (<[x :: parent := Dir]> (fs w1)) q
                      = node_at (fs w1) q)) as Hcreate.
      { intros w1 Hr1 Hwf1 Hp1 Hpar1 Hanc1. split_and!.
        - unfold os_mkdir. by rewrite Hp1, Hpar1.
        - by apply wf_fs_insert_dir.
        - intros q Hq. rewrite node_at_insert by done.
          case_decide; [done|].
          apply suffix_cons_case in Hq as [->|Hq]; [done|]. by apply Hanc1.
        - intros q Hq. rewrite node_at_insert by done.
          case_decide as Heq; [|done]. subst q. by destruct Hq. }
      destruct (node_at (fs w) parent) as [[|df]|] eqn:Hparent.
      * destruct (Hcreate w) as (_ & Hwf' & Hanc & Hoth); try done.
        { intros q Hq. destruct (decide (q = parent)) as [->|Hne]; [done|].
          apply (wf_fs_ancestors _ parent); [done|by rewrite Hparent|done..]. }
        eexists. split_and!; [done|done|exact Hwf'|exact Hanc|exact Hoth].
      * destruct (Hnf parent df); [by apply suffix_cons_r| |done].
        intros Heq. apply (f_equal length) in Heq. simpl in Heq. lia.
      * cbn [negb].
        destruct (IH true w) as (w1 & -> & Hr1 & Hwf1 & Hanc1 & Hoth1);
          [done| |by left|].
        { intros q df Hq Hne. apply Hnf; [by apply suffix_cons_r|].
          intros ->. by apply suffix_cons_not in Hq. }
        destruct (Hcreate w1) as (Hmk & Hwf' & Hanc & Hoth); try done.
        { rewrite Hoth1; [done|]. apply suffix_cons_not. }
        { by apply Hanc1. }
        unfold mkdir_single. rewrite Hmk.
        eexists. split_and!; [done|done|exact Hwf'|exact Hanc|].
        intros q Hq. cbn [fs]. rewrite Hoth by done. apply Hoth1.
        intros Hq'. apply Hq. by apply suffix_cons_r.
    + cbn [path_mkdir os_mkdir]. rewrite Hp.
      unfold mkdir_tolerate, is_dir. rewrite Hp. cbn [negb orb].
      exists w. split_and!; try done.
      intros q Hq. destruct (decide (q = x :: parent)) as [->|Hne]; [done|].
      apply (wf_fs_ancestors _ (x :: parent)); [done|by rewrite Hp|done..].
Qed.
End mkdir.

(** ** The output directory allocator *)

Section allocator.
Implicit Types (p q base_dir label : path) (w : world).

Lemma path_exists_true p w :
  path_exists p w = true ↔ is_Some (node_at (fs w) p).
Proof. unfold path_exists. apply bool_decide_eq_true. Qed.

Lemma path_exists_false p w :
  path_exists p w = false ↔ node_at (fs w) p = None.
Proof.
  unfold path_exists. rewrite bool_decide_eq_false, <- not_eq_None_Some.
  split; [apply dec_stable|auto].
Qed.

Lemma resolve_exists base_dir label w :
  path_exists (path_join base_dir label) w = true →
  resolve_processed_output_dir base_dir label w
  = (Raise (ProcessedDirExists (path_join base_dir label)), w).
Proof. intros H. unfold resolve_processed_output_dir. by rewrite H. Qed.

Lemma resolve_creates base_dir label w :
  wf_fs (fs w) →
  path_exists (path_join base_dir label) w = false →
  no_file_above (path_join base_dir label) w →
  ∃ w', resolve_processed_output_dir base_dir label w
        = (Ok (path_join base_dir label), w') ∧
        reads w' = reads w ∧
        wf_fs (fs w') ∧
        (∀ q, q `suffix_of` path_join base_dir label →
              node_at (fs w') q = Some Dir) ∧
        (∀ q, ¬ q `suffix_of` path_join base_dir label →
              node_at (fs w') q = node_at (fs w) q).
Proof.
  intros Hwf Hex Hnf. unfold resolve_processed_output_dir. rewrite Hex.
  apply path_exists_false in Hex.
  destruct (path_mkdir_creates (path_join base_dir label) false w)
    as (w' & Hmk & Hrest); [done|done|by left|].
  exists w'. split; [|done]. by rewrite (bind_step _ _ _ tt w').
Qed.

(** When the labelled directory exists once the base directory is in
    place, the builder stops there. *)
Lemma build_exists pp up tp base_dir d label w w1 :
  path_mkdir true true base_dir w = (Ok tt, w1) →
  path_exists (path_join base_dir label) w1 = true →
  build_canonical_tables pp up tp base_dir d label w
  = (Raise (ProcessedDirExists (path_join base_dir label)), w1).
Proof.
  intros Hmk Hex. unfold build_canonical_tables.
  rewrite (bind_step _ _ _ tt w1) by done.
  by rewrite (bind_raise _ _ _ (ProcessedDirExists (path_join base_dir label)) w1)
    by by apply resolve_exists.
Qed.

Lemma path_mkdir_existing_dir p w :
  is_dir p w = true → path_mkdir true true p w = (Ok tt, w).
Proof.
  intros Hd. unfold is_dir in Hd.
  destruct p as [|x parent]; cbn [path_mkdir os_mkdir].
  - done.
  - destruct (node_at (fs w) (x :: parent)) as [[|df]|] eqn:Hp; try done.
    unfold mkdir_tolerate, is_dir. by rewrite Hp.
Qed.
End allocator.

(** C4, as it holds.  In a well-formed file system,
    [resolve_processed_output_dir] fails with the directory-already-exists
    condition whenever [base_dir / label] exists, and leaves the file
    system as it was.  Otherwise, when no ancestor of [base_dir / label]
    is a regular file, it creates [base_dir / label] and its missing
    ancestors as directories, changes nothing else, and returns that path.
    Inside [build_canonical_tables] the failure comes with the read log
    unchanged: no raw input file has been read. *)
Theorem resolve_processed_output_dir_correct
    (base_dir label : path) (w : world) :
  let out_dir := path_join base_dir label in
  wf_fs (fs w) →
  (path_exists out_dir w = true →
   resolve_processed_output_dir base_dir label w
   = (Raise (ProcessedDirExists out_dir), w)) ∧
  (path_exists out_dir w = false → no_file_above out_dir w →
   ∃ w', resolve_processed_output_dir base_dir label w = (Ok out_dir, w') ∧
         reads w' = reads w ∧
         (∀ q, q `suffix_of` out_dir → node_at (fs w') q = Some Dir) ∧
         (∀ q, ¬ q `suffix_of` out_dir →
               node_at (fs w') q = node_at (fs w) q)) ∧
  (∀ pp up tp d w1,
     path_mkdir true true base_dir w = (Ok tt, w1) →
     path_exists out_dir w1 = true →
     build_canonical_tables pp up tp base_dir d label w
     = (Raise (ProcessedDirExists out_dir), w1) ∧
     reads w1 = reads w) ∧
  (∀ pp up tp d,
     is_dir base_dir w = true → path_exists out_dir w = true →
     build_canonical_tables pp up tp base_dir d label w
     = (Raise (ProcessedDirExists out_dir), w)).
Proof.
  intros out_dir Hwf. split_and!.
  - apply resolve_exists.
  - intros Hex Hnf.
    destruct (resolve_creates base_dir label w Hwf Hex Hnf)
      as (w' & Hr & Hreads & _ & Hanc & Hoth).
    by exists w'.
  - intros pp up tp d w1 Hmk Hex. split; [by apply build_exists|].
    pose proof (path_mkdir_only_adds true true base_dir w) as [Hr _].
    by rewrite Hmk in Hr.
  - intros pp up tp d Hd Hex. apply build_exists; [|done].
    by apply path_mkdir_existing_dir.
Qed.

(** ** The sample worlds *)

(** Case analysis on a lookup in a file system given by its item list. *)
Ltac fs_cases H :=
  apply elem_of_list_to_map_2 in H;
  repeat (apply elem_of_cons in H as [H|H]; [injection H as ??; subst|]);
  try (apply elem_of_nil in H; destruct H).

Lemma sample_world_wf : wf_fs (fs sample_world).
Proof. intros x p n H. cbn [fs sample_world] in H. fs_cases H; done. Qed.

Lemma short_world_wf : wf_fs (fs short_world).
Proof. intros x p n H. cbn [fs short_world] in H. fs_cases H; done. Qed.

Lemma blocked_world_wf : wf_fs (fs blocked_world).
Proof. intros x p n H. cbn [fs blocked_world] in H. fs_cases H; done. Qed.

Lemma sample_world_no_file_above :
  no_file_above ["canonical_original"; "processed"; "data"] sample_world.
Proof.
  intros q df Hq _ H. destruct q as [|x q]; [done|].
  cbn [node_at fs sample_world] in H. fs_cases H;
    by apply (bool_decide_pack _) in Hq.
Qed.

Lemma resolve_processed_output_dir_correct_witness :
  ∃ w', resolve_processed_output_dir ["processed"; "data"]
          ["canonical_original"] sample_world
        = (Ok ["canonical_original"; "processed"; "data"], w') ∧
        node_at (fs w') ["canonical_original"; "processed"; "data"]
        = Some Dir ∧
        node_at (fs w') ["data"] = Some Dir ∧
        resolve_processed_output_dir ["processed"; "data"]
          ["canonical_original"] w'
        = (Raise (ProcessedDirExists
                    ["canonical_original"; "processed"; "data"]), w').
Proof.
  destruct (resolve_processed_output_dir_correct ["processed"; "data"]
              ["canonical_original"] sample_world sample_world_wf)
    as (_ & Hcreate & _).
  destruct Hcreate as (w' & Hr & _ & Hanc & _);
    [done|exact sample_world_no_file_above|].
  exists w'. split; [exact Hr|].
  split; [by apply Hanc|].
  split; [apply Hanc; by exists ["canonical_original"; "processed"]|].
  assert (wf_fs (fs w')) as Hwf'.
  { pose proof (resolve_creates ["processed"; "data"] ["canonical_original"]
                  sample_world sample_world_wf eq_refl
                  sample_world_no_file_above) as (w2 & Hr2 & _ & Hwf2 & _).
    rewrite Hr in Hr2. by injection Hr2 as <-. }
  apply (resolve_processed_output_dir_correct ["processed"; "data"]
           ["canonical_original"] w' Hwf').
  apply path_exists_true. rewrite Hanc; [by eexists|done].
Defined.

(** C4, as stated, fails: [data] is a regular file, so [data / label]
    does not exist, and the call neither reports an existing directory
    nor creates and returns the path; [Path.mkdir] raises
    [NotADirectoryError]. *)
Lemma resolve_processed_output_dir_blocked :
  wf_fs (fs blocked_world) ∧
  path_exists (path_join ["data"] ["canonical_original"]) blocked_world
  = false ∧
  resolve_processed_output_dir ["data"] ["canonical_original"] blocked_world
  = (Raise (NotADirectory ["canonical_original"; "data"]), blocked_world) ∧
  ¬ ∃ w', resolve_processed_output_dir ["data"] ["canonical_original"]
            blocked_world
          = (Ok (path_join ["data"] ["canonical_original"]), w').
Proof.
  split; [exact blocked_world_wf|].
  split; [by vm_compute|].
  assert (resolve_processed_output_dir ["data"] ["canonical_original"]
            blocked_world
          = (Raise (NotADirectory ["canonical_original"; "data"]),
             blocked_world)) as Hr by by vm_compute.
  split; [exact Hr|]. intros [w' Hw']. rewrite Hr in Hw'. discriminate.
Qed.

(** ** The canonical table builder *)

Section builder.
Implicit Types (p q pp up tp base_dir label : path) (w : world) (df : frame).


Lemma read_csv_file p w df :
  node_at (fs w) p = Some (File df) →
  read_csv p w = (Ok df, World (fs w) (reads w ++ [p])).
Proof. intros H. unfold read_csv. by rewrite H. Qed.



Lemma resolve_only_adds base_dir label w :
  only_adds_dirs w (resolve_processed_output_dir base_dir label w).2.
Proof.
  unfold resolve_processed_output_dir.
  destruct (path_exists _ w); [apply only_adds_dirs_refl|].
  unfold bind.
  pose proof (path_mkdir_only_adds true false (path_join base_dir label) w)
    as H.
  by destruct (path_mkdir true false _ w) as [[[]|e] w1].
Qed.


End builder.



Section missing.
Implicit Types (pp up tp base_dir label : path) (w : world).

Lemma bind_lift {A B} (r : result A) (k : A → M B) w :
  bind (lift r) k w
  = match r with
    | Ok a => k a w
    | Raise e => (Raise e, w)
    end.
Proof. unfold bind, lift. by destruct r. Qed.

Lemma _ensure_columns_result df required (name : string) :
  _ensure_columns df required name
  = match missing_columns df required with
    | [] => Ok tt
    | missing => Raise (MissingColumns name missing)
    end.
Proof. unfold _ensure_columns. by destruct (missing_columns df required). Qed.

(** The builder up to and including the three column checks. *)
Lemma build_checks pp up tp base_dir d label w w1 out_dir w2
    participants units traits :
  path_mkdir true true base_dir w = (Ok tt, w1) →
  resolve_processed_output_dir base_dir label w1 = (Ok out_dir, w2) →
  node_at (fs w2) pp = Some (File participants) →
  node_at (fs w2) up = Some (File units) →
  node_at (fs w2) tp = Some (File traits) →
  ∀ table missing,
    first_missing participants units traits = Some (table, missing) →
    build_canonical_tables pp up tp base_dir d label w
    = (Raise (MissingColumns table missing),
       World (fs w2) (reads w2 ++ [pp; up; tp])).
Proof.
  intros Hmk Hres Hp Hu Ht table missing Hfirst.
  unfold build_canonical_tables.
  rewrite (bind_step _ _ _ tt w1) by done.
  rewrite (bind_step _ _ _ out_dir w2) by done.
  rewrite (bind_step _ _ _ participants _) by by apply read_csv_file.
  rewrite (bind_step _ _ _ units _) by by apply read_csv_file.
  rewrite (bind_step _ _ _ traits _) by by apply read_csv_file.
  cbn [fs reads]. rewrite <- !app_assoc. cbn [app].
  unfold first_missing in Hfirst.
  rewrite bind_lift, _ensure_columns_result.
  destruct (missing_columns participants participants_required)
    as [|c1 m1]; [|by injection Hfirst as <- <-].
  rewrite bind_lift, _ensure_columns_result.
  destruct (missing_columns units units_required)
    as [|c2 m2]; [|by injection Hfirst as <- <-].
  rewrite bind_lift, _ensure_columns_result.
  destruct (missing_columns traits traits_required)
    as [|c3 m3]; [done|by injection Hfirst as <- <-].
Qed.
End missing.

(** C1, as it holds.  Once the output directory is allocated and the
    three raw tables are loaded, a build in which some required column is
    absent fails before any transform and before anything is written: the
    file system is as the allocation left it.  The failure names the first
    table, in the order participants, units, traits, that lacks a required
    column, and every required column that this table lacks, in the order
    they are required. *)
Theorem build_canonical_tables_missing_columns
    (pp up tp base_dir : path) (d : string) (label : path)
    (w w1 w2 : world) (out_dir : path) (participants units traits : frame) :
  path_mkdir true true base_dir w = (Ok tt, w1) →
  resolve_processed_output_dir base_dir label w1 = (Ok out_dir, w2) →
  node_at (fs w2) pp = Some (File participants) →
  node_at (fs w2) up = Some (File units) →
  node_at (fs w2) tp = Some (File traits) →
  missing_columns participants participants_required
    ++ missing_columns units units_required
    ++ missing_columns traits traits_required ≠ [] →
  ∃ table missing,
    first_missing participants units traits = Some (table, missing) ∧
    missing ≠ [] ∧
    (table, missing)
    ∈ [("participants", missing_columns participants participants_required);
       ("units", missing_columns units units_required);
       ("traits", missing_columns traits traits_required)] ∧
    build_canonical_tables pp up tp base_dir d label w
    = (Raise (MissingColumns table missing),
       World (fs w2) (reads w2 ++ [pp; up; tp])).
Proof.
  intros Hmk Hres Hp Hu Ht Hsome.
  assert (∃ table missing,
            first_missing participants units traits = Some (table, missing) ∧
            missing ≠ [] ∧
            (table, missing)
            ∈ [("participants",
                missing_columns participants participants_required);
               ("units", missing_columns units units_required);
               ("traits", missing_columns traits traits_required)])
    as (table & missing & Hfirst & Hne & Hin).
  { unfold first_missing.
    destruct (missing_columns participants participants_required)
      as [|c1 m1] eqn:E1.
    2:{ eexists _, _. split; [done|]. split; [done|]. left. }
    destruct (missing_columns units units_required) as [|c2 m2] eqn:E2.
    2:{ eexists _, _. split; [done|]. split; [done|]. right. left. }
    destruct (missing_columns traits traits_required) as [|c3 m3] eqn:E3.
    2:{ eexists _, _. split; [done|]. split; [done|]. right. right. left. }
    done. }
  exists table, missing. split_and!; [done..|].
  by eapply build_checks.
Qed.

Lemma build_canonical_tables_missing_columns_witness :
  ∃ w',
    build_canonical_tables ["participants.csv"; "raw"] ["units.csv"; "raw"]
      ["traits.csv"; "raw"] ["processed"; "data"] ";" ["canonical_original"]
      short_world
    = (Raise (MissingColumns "participants" ["level"]), w') ∧
    node_at (fs w')
      ["participants.csv"; "canonical_original"; "processed"; "data"]
    = None.
Proof.
  set (base := ["processed"; "data"]).
  set (w1 := (path_mkdir true true base short_world).2).
  set (w2 := (resolve_processed_output_dir base ["canonical_original"] w1).2).
  destruct (build_canonical_tables_missing_columns
              ["participants.csv"; "raw"] ["units.csv"; "raw"]
              ["traits.csv"; "raw"] base ";" ["canonical_original"]
              short_world w1 w2 ["canonical_original"; "processed"; "data"]
              short_participants short_units sample_traits)
    as (table & missing & Hfirst & _ & _ & Hbuild).
  - by vm_compute.
  - by vm_compute.
  - by vm_compute.
  - by vm_compute.
  - by vm_compute.
  - by vm_compute.
  - vm_compute in Hfirst. injection Hfirst as <- <-.
    eexists. split; [exact Hbuild|]. by vm_compute.
Defined.

(** C1, as stated, fails: with [level] missing from participants and
    [items] missing from units, the first check raises for participants
    alone, and the failure does not name [items]. *)
Lemma build_canonical_tables_names_first_table_only :
  (build_canonical_tables ["participants.csv"; "raw"] ["units.csv"; "raw"]
     ["traits.csv"; "raw"] ["processed"; "data"] ";" ["canonical_original"]
     short_world).1
  = Raise (MissingColumns "participants" ["level"]) ∧
  "items" ∈ missing_columns short_units units_required ∧
  ¬ names_all_missing (MissingColumns "participants" ["level"])
      short_participants short_units sample_traits.
Proof.
  split; [by vm_compute|].
  split; [by apply (bool_decide_unpack _); vm_compute|].
  intros (table & missing & [= <- <-] & Hall).
  specialize (Hall "items").
  assert ("items" ∈ ["level"]) as Hin.
  { apply Hall. by apply (bool_decide_unpack _); vm_compute. }
  by apply (bool_decide_pack _) in Hin.
Qed.

(** ** A build that returns *)

Section returns.
Implicit Types (pp up tp base_dir label : path) (w : world) (df : frame).

Lemma missing_columns_nil df required c :
  missing_columns df required = [] → c ∈ required → c ∈ columns df.
Proof.
  intros Hm Hc. apply dec_stable. intros Hn.
  by apply (filter_nil_not_elem_of _ _ c Hm Hn).
Qed.

Lemma series_cmp_total (f : Z → bool) (series : list value) :
  (∀ v s, v ∈ series → v ≠ VStr s) →
  ∃ mask,
    rmap (λ v, let* n := as_number v in Ok (from_option f false n)) series
    = Ok mask.
Proof.
  intros Hs. induction series as [|v series IH]; [by eexists|].
  destruct IH as [mask IH].
  { intros v' s Hv'. apply Hs. by right. }
  cbn [rmap]. rewrite IH.
  destruct v as [|s|z|b]; try (by eexists).
  by destruct (Hs (VStr s) s (list_elem_of_here _ _)).
Qed.

Lemma add_participant_flags_Ok df threshold placement :
  get_col df "placement" = Ok placement →
  (∀ v s, v ∈ placement → v ≠ VStr s) →
  ∃ out, add_participant_flags df threshold = Ok out.
Proof.
  intros Hp Hcmp. unfold add_participant_flags.
  rewrite _ensure_columns_result.
  assert (missing_columns df ["placement"] = []) as ->.
  { unfold missing_columns. rewrite filter_cons_False, filter_nil; [done|].
    intros Hn. apply Hn. apply get_col_Ok in Hp as (j & Hj & _).
    apply index_of_is_Some. eauto. }
  cbn [rbind]. rewrite Hp. cbn [rbind].
  destruct (series_cmp_total (λ z, (z <=? threshold)%Z) placement Hcmp)
    as [flags Hf].
  unfold series_le. rewrite Hf. by eexists.
Qed.

Lemma to_csv_new df x parent w :
  node_at (fs w) parent = Some Dir →
  node_at (fs w) (x :: parent) = None →
  to_csv df (x :: parent) w
  = (Ok tt, World (<[x :: parent := File df]> (fs w)) (reads w)).
Proof. intros Hp Hx. unfold to_csv. by rewrite Hp, Hx. Qed.

(** The builder returns the labelled directory whenever the directory can
    be allocated, the three raw files hold tables with their required
    columns, the delimiter is not empty, and the [placement] and
    [tier_current] cells compare with an integer. *)
Lemma build_canonical_tables_returns pp up tp base_dir d label w
    participants units traits placement tier :
  wf_fs (fs w) → label ≠ [] →
  node_at (fs w) (path_join base_dir label) = None →
  no_file_above (path_join base_dir label) w →
  node_at (fs w) pp = Some (File participants) →
  node_at (fs w) up = Some (File units) →
  node_at (fs w) tp = Some (File traits) →
  missing_columns participants participants_required = [] →
  missing_columns units units_required = [] →
  missing_columns traits traits_required = [] →
  rect units → d ≠ "" →
  get_col participants "placement" = Ok placement →
  (∀ v s, v ∈ placement → v ≠ VStr s) →
  get_col traits "tier_current" = Ok tier →
  (∀ v s, v ∈ tier → v ≠ VStr s) →
  ∃ w', build_canonical_tables pp up tp base_dir d label w
        = (Ok (path_join base_dir label), w').
Proof.
  intros Hwf Hlabel Hnone Hnf Hp Hu Ht Hmp Hmu Hmt Hrect Hd
    Hplace Hpcmp Htier Htcmp.
  set (out_dir := path_join base_dir label) in *.
  assert (base_dir `suffix_of` out_dir) as Hbase by by exists label.
  assert (base_dir ≠ out_dir) as Hbne.
  { intros Heq. apply (f_equal length) in Heq. unfold out_dir, path_join in Heq.
    rewrite length_app in Heq. destruct label; [done|]. simpl in Heq. lia. }
  (* the base directory *)
  destruct (path_mkdir_creates base_dir true w)
    as (w1 & Hmk & Hr1 & Hwf1 & Hanc1 & Hoth1); [done| | |].
  { intros q df Hq Hne. apply Hnf; [by etrans|].
    intros ->. apply Hne. by apply (anti_symm suffix). }
  { destruct (node_at (fs w) base_dir) as [[|df]|] eqn:Hb; auto.
    by destruct (Hnf base_dir df). }
  (* the labelled directory *)
  assert (¬ out_dir `suffix_of` base_dir) as Hnsuf.
  { intros Hs. apply Hbne. by apply (anti_symm suffix). }
  destruct (resolve_creates base_dir label w1)
    as (w2 & Hres & Hr2 & Hwf2 & Hanc2 & Hoth2); [done| | |].
  { apply path_exists_false. by rewrite Hoth1. }
  { intros q df Hq Hne.
    destruct (decide (q `suffix_of` base_dir)) as [Hqb|Hqb].
    - by rewrite Hanc1.
    - rewrite Hoth1 by done. by apply Hnf. }
  fold out_dir in Hres, Hanc2, Hoth2.
  assert (only_adds_dirs w w2) as Honly.
  { pose proof (path_mkdir_only_adds true true base_dir w) as H1.
    pose proof (resolve_only_adds base_dir label w1) as H2.
    rewrite Hmk in H1. rewrite Hres in H2.
    by eapply only_adds_dirs_trans. }
  assert (∀ x, node_at (fs w2) (x :: out_dir) = None) as Hchild.
  { intros x. rewrite Hoth2 by apply suffix_cons_not.
    rewrite Hoth1.
    2:{ intros Hs. apply Hnsuf. etrans; [|exact Hs]. by apply suffix_cons_r. }
    destruct (node_at (fs w) (x :: out_dir)) as [n|] eqn:Hx; [|done].
    simpl in Hx. apply Hwf in Hx. congruence. }
  (* the steps of the builder *)
  destruct (add_participant_flags_Ok participants 4 placement Hplace Hpcmp)
    as [participants' Hflags].
  destruct (proj2 (index_of_is_Some "items" (columns units)))
    as [j Hj].
  { apply (missing_columns_nil units units_required); [done|].
    by apply (bool_decide_unpack _); vm_compute. }
  pose proof (normalize_delimited_column_rows d units "items" j Hd Hj)
    as Hnorm.
  set (units1 := Frame (columns units) _) in Hnorm.
  assert (get_col units1 "items" = Ok (cell_at j <$> rows units1)) as Hs1.
  { unfold get_col. subst units1. cbn [columns]. by rewrite Hj. }
  pose proof (split_delimited_to_columns_Ok units1 "items" "item" d
                (Some 3%Z) _ Hd Hs1) as Hsplit.
  cbn zeta in Hsplit.
  set (lists := (λ v, VStr <$> tokens d v) <$> _) in Hsplit.
  set (units2 := foldl _ units1 _) in Hsplit.
  destruct (split_loop "item" lists (range (max_len (Some 3%Z) lists)) units1)
    as (_ & _ & _ & _ & Hcols); [| |apply NoDup_range|].
  { unfold units1, rect. cbn [rows columns]. apply Forall_fmap.
    eapply Forall_impl; [exact Hrect|]. intros r Hr. simpl.
    by rewrite length_insert. }
  { unfold lists. by rewrite !length_fmap. }
  fold units2 in Hcols.
  destruct (proj2 (index_of_is_Some "items" (columns units2))) as [j2 Hj2].
  { rewrite Hcols. apply elem_of_app. left. apply index_of_is_Some. eauto. }
  destruct (series_cmp_total (λ z, (0 <? z)%Z) tier Htcmp) as [mask Hmask].
  (* run *)
  eexists. unfold build_canonical_tables.
  rewrite (bind_step _ _ _ tt w1) by done.
  rewrite (bind_step _ _ _ out_dir w2) by done.
  apply (only_adds_dirs_file w w2) in Hp, Hu, Ht; try done.
  rewrite (bind_step _ _ _ participants _) by by apply read_csv_file.
  rewrite (bind_step _ _ _ units _) by by apply read_csv_file.
  rewrite (bind_step _ _ _ traits _) by by apply read_csv_file.
  rewrite bind_lift, _ensure_columns_result, Hmp.
  rewrite bind_lift, _ensure_columns_result, Hmu.
  rewrite bind_lift, _ensure_columns_result, Hmt.
  rewrite bind_lift, Hflags.
  rewrite bind_lift, Hnorm.
  rewrite bind_lift, Hsplit.
  rewrite bind_lift. unfold drop_col at 1. rewrite Hj2.
  rewrite bind_lift, Htier.
  rewrite bind_lift. unfold series_gt. rewrite Hmask.
  erewrite (bind_step _ _ _ tt).
  2:{ apply to_csv_new; cbn [fs]; [by apply Hanc2|apply Hchild]. }
  erewrite (bind_step _ _ _ tt).
  2:{ apply to_csv_new; cbn [fs]; rewrite node_at_insert by done;
        (rewrite decide_False; [|done || (intros Heq;
           apply (f_equal length) in Heq; simpl in Heq; lia)]);
        [by apply Hanc2|apply Hchild]. }
  erewrite (bind_step _ _ _ tt).
  2:{ apply to_csv_new; cbn [fs]; rewrite !node_at_insert by done;
        (rewrite !decide_False; [|done || (intros Heq;
           apply (f_equal length) in Heq; simpl in Heq; lia)..]);
        [by apply Hanc2|apply Hchild]. }
  reflexivity.
Qed.
End returns.

(** ** Scenarios *)

Example split_semicolons : py_split ";" "a;;b" = Ok ["a"; ""; "b"].
Proof. reflexivity. Qed.

Example split_leftmost : py_split "aa" "a aaa" = Ok ["a "; "a"].
Proof. reflexivity. Qed.

Example split_empty_separator : py_split "" "abc" = Raise EmptySeparator.
Proof. reflexivity. Qed.

Example strip_both_ends : strip "  a b	 " = "a b".
Proof. reflexivity. Qed.

(** Normalisation is not idempotent for a delimiter of several
    characters. *)
Example normalize_two_character_delimiter :
  normalize_cell "aa" (VStr "a aaa") = Ok (VStr "aaaa") ∧
  normalize_cell "aa" (VStr "aaaa") = Ok (VStr "").
Proof. split; reflexivity. Qed.

(** Scenario A: placements 1 to 8 with threshold 4. *)
Example scenario_is_win :
  ∃ out,
    add_participant_flags
      (Frame ["placement"]
         [[VInt 1]; [VInt 2]; [VInt 3]; [VInt 4];
          [VInt 5]; [VInt 6]; [VInt 7]; [VInt 8]]) 4
    = Ok out ∧
    get_col out "is_win"
    = Ok (VBool <$> [true; true; true; true; false; false; false; false]).
Proof. eexists. split; reflexivity. Qed.

(** Scenario B: two items fill the first two of three slots. *)
Example scenario_item_slots :
  split_delimited_to_columns (Frame ["items"] [[VStr "ItemA;ItemB"]])
    "items" "item" ";" (Some 3%Z)
  = Ok (Frame ["items"; "item_0"; "item_1"; "item_2"]
          [[VStr "ItemA;ItemB"; VStr "ItemA"; VStr "ItemB"; VNA]]).
Proof. reflexivity. Qed.

(** Scenario D: units without [star_level]. *)
Example scenario_missing_star_level :
  _ensure_columns (Frame ["match_id"; "puuid"; "unit_id"; "items"] [])
    units_required "units"
  = Raise (MissingColumns "units" ["star_level"]).
Proof. reflexivity. Qed.
